(** * Income Tax Calculator: a shallow embedding of [script.js]

    The class [TaxCalculator] of [script.js] is embedded function by
    function.

    - JavaScript numbers are IEEE 754 binary64 values.  They are modelled by
      [spec_float] with the operations of [SpecFloat] at precision 53 and
      maximal exponent 1024, so every arithmetic step below rounds the way
      the interpreter does, and [NaN], the two zeros and the infinities are
      values like the others.
    - The object literals used as lookup tables ([taxBrackets2024],
      [standardDeductions2024], [stateRates]) are finite maps holding their
      own properties; a read [table[key]] also finds the members of
      [Object.prototype], as it does in the interpreter.
    - The DOM is outside the embedding: the values read from the form are the
      inputs of [calculateTax], and what it hands to [displayResults] and
      [displayBreakdown] is its outcome.
    - [localStorage] is reduced to its item ['taxHistory'].

    An amount of money is a finite number: the statements about all taxable
    incomes range over the finite non-negative binary64 values. *)

From Stdlib Require Import ZArith Bool List Lia Ascii String.
From Stdlib Require Import Floats.SpecFloat.
From stdpp Require Import gmap strings.
Import ListNotations.

(** ** JavaScript numbers *)

Module JS.

Definition number := spec_float.

Definition prec : Z := 53.
Definition emax : Z := 1024.

Definition NaN : number := S754_nan.
Definition Infinity : number := S754_infinity false.

(** The number denoted by an integer literal. *)
Definition ofZ (z : Z) : number := binary_normalize prec emax z 0 false.

Definition add : number -> number -> number := SFadd prec emax.
Definition sub : number -> number -> number := SFsub prec emax.
Definition mul : number -> number -> number := SFmul prec emax.
Definition div : number -> number -> number := SFdiv prec emax.

(** A decimal literal [m / 10^k], such as [0.12]: the binary64 value nearest
  to the written decimal.  Both [m] and [10^k] are exact binary64 integers
  for the literals of the program, so one correctly rounded division
  yields that value. *)
Definition lit (m : Z) (k : nat) : number := div (ofZ m) (ofZ (10 ^ Z.of_nat k)).

(** Relational operators: every comparison with [NaN] is [false]. *)
Definition lt (x y : number) : bool := SFltb x y.
Definition le (x y : number) : bool := SFleb x y.
Definition gt (x y : number) : bool := lt y x.
Definition ge (x y : number) : bool := le y x.

(** [ToBoolean] on a number: [+0], [-0] and [NaN] are falsy. *)
Definition truthy (x : number) : bool :=
match x with
| S754_zero _ | S754_nan => false
| _ => true
end.

(** [x || y] on numbers. *)
Definition or_else (x y : number) : number := if truthy x then x else y.

Definition is_nan (x : number) : bool :=
match x with S754_nan => true | _ => false end.

Definition is_neg_zero (x : number) : bool :=
match x with S754_zero true => true | _ => false end.

(** [Math.max(x, y)]: [NaN] if either is, and [+0] is larger than [-0]. *)
Definition Math_max (x y : number) : number :=
if is_nan x || is_nan y then NaN
else if lt x y then y
else if lt y x then x
else if is_neg_zero x then y else x.

(** [Math.min(x, y)]: [NaN] if either is, and [-0] is smaller than [+0]. *)
Definition Math_min (x y : number) : number :=
if is_nan x || is_nan y then NaN
else if lt x y then x
else if lt y x then y
else if is_neg_zero x then x else y.

(** [Math.round(x)]: the integer nearest to [x], the larger one at a tie;
  [NaN], the zeros, the infinities and the integers are returned as they
  are, and a result of magnitude zero keeps the sign of [x]. *)
Definition Math_round (x : number) : number :=
match x with
| S754_finite s m e =>
    if (0 <=? e)%Z then x
    else
      let k := (- e)%Z in
      let q := Z.shiftr (Zpos m) k in
      let r := Z.land (Zpos m) (Z.ones k) in
      let h := Z.shiftl 1 (k - 1) in
      let n := if s then (if (h <? r)%Z then q + 1 else q)%Z
               else (if (h <=? r)%Z then q + 1 else q)%Z in
      binary_normalize prec emax (cond_Zopp s n) 0 s
| _ => x
end.

End JS.

Import JS.

(** ** The data of the calculator *)

Module TaxBracket.
Record t : Type := { min : number; max : number; rate : number }.
End TaxBracket.

Abbreviation TaxBracket := TaxBracket.t.

Definition bracket (lo hi : number) (r : number) : TaxBracket :=
  {| TaxBracket.min := lo; TaxBracket.max := hi; TaxBracket.rate := r |}.

(** [this.taxBrackets2024.single] *)
Definition single_brackets : list TaxBracket :=
  [ bracket (ofZ 0) (ofZ 11000) (lit 10 2);
    bracket (ofZ 11000) (ofZ 44725) (lit 12 2);
    bracket (ofZ 44725) (ofZ 95375) (lit 22 2);
    bracket (ofZ 95375) (ofZ 182050) (lit 24 2);
    bracket (ofZ 182050) (ofZ 231250) (lit 32 2);
    bracket (ofZ 231250) (ofZ 578125) (lit 35 2);
    bracket (ofZ 578125) Infinity (lit 37 2) ].

(** [this.taxBrackets2024.marriedJointly] *)
Definition marriedJointly_brackets : list TaxBracket :=
  [ bracket (ofZ 0) (ofZ 22000) (lit 10 2);
    bracket (ofZ 22000) (ofZ 89450) (lit 12 2);
    bracket (ofZ 89450) (ofZ 190750) (lit 22 2);
    bracket (ofZ 190750) (ofZ 364200) (lit 24 2);
    bracket (ofZ 364200) (ofZ 462500) (lit 32 2);
    bracket (ofZ 462500) (ofZ 693750) (lit 35 2);
    bracket (ofZ 693750) Infinity (lit 37 2) ].

Definition taxBrackets2024 : gmap string (list TaxBracket) :=
  <["single"%string := single_brackets]>
  (<["marriedJointly"%string := marriedJointly_brackets]> ∅).

Definition standardDeductions2024 : gmap string number :=
  <["single"%string := ofZ 13850]>
  (<["marriedJointly"%string := ofZ 27700]>
  (<["marriedSeparately"%string := ofZ 13850]>
  (<["headOfHousehold"%string := ofZ 20800]> ∅))).

(** The table local to [calculateStateTax]. *)
Definition stateRates : gmap string number :=
  <["none"%string := ofZ 0]>
  (<["low"%string := lit 3 2]>
  (<["medium"%string := lit 6 2]>
  (<["high"%string := lit 10 2]> ∅))).

(** ** Reading a lookup table

    The three tables are object literals, so their prototype is
    [Object.prototype]: a read [table[key]] gives the table's own property
    when it has one, else the member of [Object.prototype] of that name,
    else [undefined]. *)

(** The property names of [Object.prototype] (ECMA-262, 20.1.3 and, for a
    script that runs in a browser, B.2.2).  Each holds a function, except
    the accessor [__proto__], which yields [Object.prototype] itself.  So
    every member is an object: it is truthy, it is not iterable, and
    [ToNumber] turns it into [NaN] (its string form is not a number). *)
Definition Object_prototype : list string :=
  [ "constructor"; "hasOwnProperty"; "isPrototypeOf"; "propertyIsEnumerable";
    "toLocaleString"; "toString"; "valueOf"; "__proto__";
    "__defineGetter__"; "__defineSetter__"; "__lookupGetter__";
    "__lookupSetter__" ]%string.

Definition inherited (key : string) : bool :=
  existsb (String.eqb key) Object_prototype.

(** What [table[key] || fallback] can be: a value of the kind the table
    holds, or the member [name] of [Object.prototype]. *)
Inductive value (A : Type) : Type :=
  | Value (a : A)
  | Member (name : string).

Arguments Value {A} a.
Arguments Member {A} name.

(** A number where a [value] is expected is that number. *)
Definition Num (x : number) : value number := Value x.

Coercion Num : number >-> value.

(** [table[key] || fallback]: the own property when it is truthy, the
    inherited member when [key] names one, [fallback] otherwise. *)
Definition lookup_or {A : Type} (is_truthy : A -> bool) (table : gmap string A)
    (key : string) (fallback : A) : value A :=
  match table !! key with
  | Some a => Value (if is_truthy a then a else fallback)
  | None => if inherited key then Member key else Value fallback
  end.

(** [ToNumber], applied by the arithmetic operators to an operand. *)
Definition ToNumber (v : value number) : number :=
  match v with
  | Value x => x
  | Member _ => NaN
  end.

(** ** The tax functions *)

(** One turn of the loop of [calculateFederalTax]. *)
Definition federal_step (taxableIncome : number) (tax : number) (b : TaxBracket) : number :=
  if gt taxableIncome (TaxBracket.min b) then
    let taxableAtThisBracket :=
      sub (Math_min taxableIncome (TaxBracket.max b)) (TaxBracket.min b) in
    add tax (mul taxableAtThisBracket (TaxBracket.rate b))
  else tax.

(** [Math.round(x * 100) / 100] *)
Definition round2 (x : number) : number :=
  div (Math_round (mul x (ofZ 100))) (ofZ 100).

Definition calculateFederalTax (taxableIncome : number) (brackets : list TaxBracket) : number :=
  let tax := fold_left (federal_step taxableIncome) brackets (ofZ 0) in
  round2 tax.

Definition calculateStateTax (income : number) (state : string) : number :=
  let rate := lookup_or truthy stateRates state (ofZ 0) in
  div (Math_round (mul (mul income (ToNumber rate)) (ofZ 100))) (ofZ 100).

(** [getMarginalRate]: [None] stands for the [TypeError] of reading [.rate]
    of [brackets[-1]] when [brackets] is empty. *)
Fixpoint first_match (taxableIncome : number) (brackets : list TaxBracket) : option TaxBracket :=
  match brackets with
  | [] => None
  | b :: rest =>
      if ge taxableIncome (TaxBracket.min b) && lt taxableIncome (TaxBracket.max b)
      then Some b
      else first_match taxableIncome rest
  end.

Definition getMarginalRate (taxableIncome : number) (brackets : list TaxBracket) : option number :=
  match first_match taxableIncome brackets with
  | Some b => Some (TaxBracket.rate b)
  | None => TaxBracket.rate <$> last brackets
  end.


(** ** Calculations, results and the calculator's state *)

(** The object handed to [saveToHistory]. *)
Module Calculation.
Record t : Type := {
  date : string;
  income : number;
  filingStatus : string;
  federalTax : number;
  stateTax : number;
  totalTax : number;
  afterTaxIncome : number
}.
End Calculation.

(** The object handed to [displayResults]. *)
Module Results.
Record t : Type := {
  income : number;
  filingStatus : string;
  deductions : value number;
  taxableIncome : number;
  federalTax : number;
  stateTax : number;
  totalTax : number;
  afterTaxIncome : number;
  brackets : list TaxBracket
}.
End Results.

(** What [displayBreakdown] computes before formatting. *)
Module Breakdown.
Record t : Type := {
  effectiveRate : number;   (* (totalTax / income) * 100, before toFixed(2) *)
  marginalRate : number
}.
End Breakdown.

(** The values [calculateTax] reads from the form: the two numeric fields
    after [parseFloat] ([NaN] for an empty or unreadable field) and the two
    selected strings. *)
Module Form.
Record t : Type := {
  income : number;
  filingStatus : string;
  deductions : number;
  state : string
}.
End Form.

(** The mutable part of a [TaxCalculator] together with the item
    ['taxHistory'] of [localStorage] as the calculator writes it: [None] when
    the key is absent, [Some h] when it holds the text [JSON.stringify(h)]. *)
Module TaxCalculator.
Record t : Type := {
  history : list Calculation.t;
  taxHistory : option (list Calculation.t)
}.
End TaxCalculator.

Abbreviation TaxCalculator := TaxCalculator.t.

(** How a call of [calculateTax] ends. *)
Inductive Outcome : Type :=
  | Alert (message : string)
  | Displayed (results : Results.t) (breakdown : Breakdown.t)
  | TypeError.

(** [h.unshift(c); if (h.length > 10) h.pop();] *)
Definition history_push {A : Type} (h : list A) (c : A) : list A :=
  let h := c :: h in
  if 10 <? length h then removelast h else h.

(** Lines 80-81: the deductions chosen from the parsed field and the filing
    status. *)
Definition resolve_deductions (filingStatus : string) (customDeductionsField : number)
  : value number :=
  let customDeductions := or_else customDeductionsField (ofZ 0) in
  let standardDeduction := lookup_or truthy standardDeductions2024 filingStatus (ofZ 13850) in
  if truthy customDeductions then Value customDeductions else standardDeduction.

(** Line 87: an array is truthy, and so is a member of [Object.prototype]:
    [||] takes the brackets of [single] only when the read gives
    [undefined]. *)
Definition resolve_brackets (filingStatus : string) : value (list TaxBracket) :=
  lookup_or (fun _ => true) taxBrackets2024 filingStatus single_brackets.

Definition displayBreakdown (results : Results.t) : option Breakdown.t :=
  let effectiveRate :=
    mul (div (Results.totalTax results) (Results.income results)) (ofZ 100) in
  match getMarginalRate (Results.taxableIncome results) (Results.brackets results) with
  | Some marginalRate =>
      Some {| Breakdown.effectiveRate := effectiveRate;
              Breakdown.marginalRate := marginalRate |}
  | None => None
  end.

Definition saveToHistory (this : TaxCalculator) (calculation : Calculation.t) : TaxCalculator :=
  let history := history_push (TaxCalculator.history this) calculation in
  {| TaxCalculator.history := history;
     TaxCalculator.taxHistory := Some history |}.

Definition clearHistory (this : TaxCalculator) : TaxCalculator :=
  {| TaxCalculator.history := []; TaxCalculator.taxHistory := None |}.

(** [today] is [new Date().toLocaleDateString()]. *)
Definition calculateTax (this : TaxCalculator) (form : Form.t) (today : string)
  : Outcome * TaxCalculator :=
  let income := or_else (Form.income form) (ofZ 0) in
  let filingStatus := Form.filingStatus form in
  let state := Form.state form in
  if negb (truthy income) || String.eqb filingStatus "" then
    (Alert "Please enter your income and filing status.", this)
  else
    let deductions := resolve_deductions filingStatus (Form.deductions form) in
    let taxableIncome := Math_max (ofZ 0) (sub income (ToNumber deductions)) in
    match resolve_brackets filingStatus with
    | Member _ =>
        (* line 131: [for (const bracket of brackets)] on a value that is
           not iterable *)
        (TypeError, this)
    | Value brackets =>
        let federalTax := calculateFederalTax taxableIncome brackets in
        let stateTax := calculateStateTax income state in
        let totalTax := add federalTax stateTax in
        let afterTaxIncome := sub income totalTax in
        let results :=
          {| Results.income := income;
             Results.filingStatus := filingStatus;
             Results.deductions := deductions;
             Results.taxableIncome := taxableIncome;
             Results.federalTax := federalTax;
             Results.stateTax := stateTax;
             Results.totalTax := totalTax;
             Results.afterTaxIncome := afterTaxIncome;
             Results.brackets := brackets |} in
        match displayBreakdown results with
        | None => (TypeError, this)
        | Some breakdown =>
            (Displayed results breakdown,
             saveToHistory this
               {| Calculation.date := today;
                  Calculation.income := income;
                  Calculation.filingStatus := filingStatus;
                  Calculation.federalTax := federalTax;
                  Calculation.stateTax := stateTax;
                  Calculation.totalTax := totalTax;
                  Calculation.afterTaxIncome := afterTaxIncome |})
        end
    end.


(** ** Loading the history: [JSON.parse]

    The constructor reads the item ['taxHistory'] and hands it to
    [JSON.parse].  The parser below follows the JSON grammar (ECMA-404):
    white space, the literals [null], [true] and [false], numbers, strings
    with escapes, arrays and objects.  A number keeps its sign, the integer
    [m] made of its digits and the decimal exponent [e], so it denotes
    [m * 10^e].  A string keeps its code units: a raw character
    contributes its code, an escape [\uXXXX] its four hex digits. *)

#[local] Set Warnings "-register-all".
Inductive json : Type :=
  | JNull
  | JBool (b : bool)
  | JNumber (negative : bool) (m : N) (e : Z)
  | JString (units : list N)
  | JArray (items : list json)
  | JObject (members : list (list N * json)).

Module Parser.

Definition chars := list ascii.

(** The double quote, character 34. *)
Definition quote : ascii := ascii_of_N 34.

Definition is_ws (c : ascii) : bool :=
  let n := N_of_ascii c in
  (n =? 32)%N || (n =? 9)%N || (n =? 10)%N || (n =? 13)%N.

Fixpoint skip_ws (s : chars) : chars :=
  match s with
  | c :: rest => if is_ws c then skip_ws rest else s
  | [] => []
  end.

Definition digit (c : ascii) : option N :=
  let n := N_of_ascii c in
  if (48 <=? n)%N && (n <=? 57)%N then Some (n - 48)%N else None.

Definition hex_digit (c : ascii) : option N :=
  let n := N_of_ascii c in
  if (48 <=? n)%N && (n <=? 57)%N then Some (n - 48)%N
  else if (65 <=? n)%N && (n <=? 70)%N then Some (n - 55)%N
  else if (97 <=? n)%N && (n <=? 102)%N then Some (n - 87)%N
  else None.

(** Reads the digits at the front of [s] into [acc]; also counts them. *)
Fixpoint digits (s : chars) (acc : N) (count : nat) : N * nat * chars :=
  match s with
  | c :: rest =>
      match digit c with
      | Some d => digits rest (acc * 10 + d)%N (S count)
      | None => (acc, count, s)
      end
  | [] => (acc, count, [])
  end.

(** The integer part: a single [0], or a non-empty run of digits that does
    not start with [0]. *)
Definition int_part (s : chars) : option (N * chars) :=
  match s with
  | c :: rest =>
      match digit c with
      | Some 0%N => Some (0%N, rest)
      | Some d => let '(m, _, rest') := digits rest d 0 in Some (m, rest')
      | None => None
      end
  | [] => None
  end.

Definition frac_part (m : N) (s : chars) : option (N * nat * chars) :=
  match s with
  | "."%char :: rest =>
      match digits rest m 0 with
      | (_, O, _) => None
      | r => Some r
      end
  | _ => Some (m, O, s)
  end.

Definition exp_digits (s : chars) : option (N * chars) :=
  match digits s 0 0 with
  | (_, O, _) => None
  | (x, _, rest) => Some (x, rest)
  end.

Definition exp_part (s : chars) : option (Z * chars) :=
  match s with
  | c :: rest =>
      if Ascii.eqb c "e" || Ascii.eqb c "E" then
        match rest with
        | "-"%char :: rest' =>
            match exp_digits rest' with
            | Some (x, r) => Some (- Z.of_N x, r)%Z
            | None => None
            end
        | "+"%char :: rest' =>
            match exp_digits rest' with
            | Some (x, r) => Some (Z.of_N x, r)
            | None => None
            end
        | _ =>
            match exp_digits rest with
            | Some (x, r) => Some (Z.of_N x, r)
            | None => None
            end
        end
      else Some (0%Z, s)
  | [] => Some (0%Z, [])
  end.

Definition unsigned_number (negative : bool) (s : chars) : option (json * chars) :=
  match int_part s with
  | Some (m, s1) =>
      match frac_part m s1 with
      | Some (m', count, s2) =>
          match exp_part s2 with
          | Some (x, s3) => Some (JNumber negative m' (x - Z.of_nat count), s3)
          | None => None
          end
      | None => None
      end
  | None => None
  end.

Definition number (s : chars) : option (json * chars) :=
  match s with
  | "-"%char :: rest => unsigned_number true rest
  | _ => unsigned_number false s
  end.

(** The characters of a string after its opening quote. *)
Fixpoint string_body (s : chars) (acc : list N) : option (list N * chars) :=
  match s with
  | [] => None
  | c :: rest =>
      if Ascii.eqb c quote then Some (rev acc, rest)
      else if Ascii.eqb c "\" then
        match rest with
        | [] => None
        | c2 :: rest2 =>
            if Ascii.eqb c2 "u" then
              match rest2 with
              | h1 :: h2 :: h3 :: h4 :: rest' =>
                  match hex_digit h1, hex_digit h2, hex_digit h3, hex_digit h4 with
                  | Some a, Some b, Some c', Some d =>
                      string_body rest' ((((a * 16 + b) * 16 + c') * 16 + d)%N :: acc)
                  | _, _, _, _ => None
                  end
              | _ => None
              end
            else if Ascii.eqb c2 quote then string_body rest2 (34%N :: acc)
            else if Ascii.eqb c2 "\" then string_body rest2 (92%N :: acc)
            else if Ascii.eqb c2 "/" then string_body rest2 (47%N :: acc)
            else if Ascii.eqb c2 "b" then string_body rest2 (8%N :: acc)
            else if Ascii.eqb c2 "f" then string_body rest2 (12%N :: acc)
            else if Ascii.eqb c2 "n" then string_body rest2 (10%N :: acc)
            else if Ascii.eqb c2 "r" then string_body rest2 (13%N :: acc)
            else if Ascii.eqb c2 "t" then string_body rest2 (9%N :: acc)
            else None
        end
      else if (N_of_ascii c <? 32)%N then None
      else string_body rest (N_of_ascii c :: acc)
  end.

Fixpoint keyword (k s : chars) : option chars :=
  match k, s with
  | [], _ => Some s
  | a :: k', b :: s' => if Ascii.eqb a b then keyword k' s' else None
  | _ :: _, [] => None
  end.

(** [value] reads one value at the front of [s] (no leading white space);
    [elements] and [members] read what follows the opening bracket or
    brace up to the closing one.  Every call uses one unit of [fuel]. *)
Fixpoint value (fuel : nat) (s : chars) {struct fuel} : option (json * chars) :=
  match fuel with
  | O => None
  | S fuel =>
      match s with
      | "["%char :: rest =>
          match skip_ws rest with
          | "]"%char :: rest' => Some (JArray [], rest')
          | rest' =>
              match elements fuel rest' with
              | Some (items, r) => Some (JArray items, r)
              | None => None
              end
          end
      | "{"%char :: rest =>
          match skip_ws rest with
          | "}"%char :: rest' => Some (JObject [], rest')
          | rest' =>
              match members fuel rest' with
              | Some (ms, r) => Some (JObject ms, r)
              | None => None
              end
          end
      | "t"%char :: _ =>
          match keyword (list_ascii_of_string "true") s with
          | Some r => Some (JBool true, r)
          | None => None
          end
      | "f"%char :: _ =>
          match keyword (list_ascii_of_string "false") s with
          | Some r => Some (JBool false, r)
          | None => None
          end
      | "n"%char :: _ =>
          match keyword (list_ascii_of_string "null") s with
          | Some r => Some (JNull, r)
          | None => None
          end
      | c :: rest =>
          if Ascii.eqb c quote then
            match string_body rest [] with
            | Some (u, r) => Some (JString u, r)
            | None => None
            end
          else number s
      | [] => None
      end
  end
with elements (fuel : nat) (s : chars) {struct fuel} : option (list json * chars) :=
  match fuel with
  | O => None
  | S fuel =>
      match value fuel s with
      | Some (v, r) =>
          match skip_ws r with
          | "]"%char :: r' => Some ([v], r')
          | ","%char :: r' =>
              match elements fuel (skip_ws r') with
              | Some (vs, r'') => Some (v :: vs, r'')
              | None => None
              end
          | _ => None
          end
      | None => None
      end
  end
with members (fuel : nat) (s : chars) {struct fuel} : option (list (list N * json) * chars) :=
  match fuel with
  | O => None
  | S fuel =>
      match s with
      | c :: rest =>
          if Ascii.eqb c quote then
            match string_body rest [] with
            | Some (k, r) =>
                match skip_ws r with
                | ":"%char :: r1 =>
                    match value fuel (skip_ws r1) with
                    | Some (v, r2) =>
                        match skip_ws r2 with
                        | "}"%char :: r3 => Some ([(k, v)], r3)
                        | ","%char :: r3 =>
                            match members fuel (skip_ws r3) with
                            | Some (ms, r4) => Some ((k, v) :: ms, r4)
                            | None => None
                            end
                        | _ => None
                        end
                    | None => None
                    end
                | _ => None
                end
            | None => None
            end
          else None
      | [] => None
      end
  end.

End Parser.

(** [JSON.parse(text)]: [None] stands for the [SyntaxError] it throws.  Two
    units of fuel per character and two more cover every call the descent
    can make. *)
Definition JSON_parse (text : string) : option json :=
  let s := list_ascii_of_string text in
  match Parser.value (2 * length s + 2) (Parser.skip_ws s) with
  | Some (v, rest) =>
      match Parser.skip_ws rest with
      | [] => Some v
      | _ :: _ => None
      end
  | None => None
  end.

(** [ToBoolean] on a parsed value.  A number is falsy when its binary64 value
    is a zero: when it has no non-zero digit, or when [m * 10^e] is at most
    [2^-1075], half of the least positive binary64 value. *)
Definition json_truthy (v : json) : bool :=
  match v with
  | JNull => false
  | JBool b => b
  | JNumber _ m e =>
      negb ((m =? 0)%N
            || ((e <? 0)%Z && (Z.of_N m * 2 ^ 1075 <=? 10 ^ (- e))%Z))
  | JString u => match u with [] => false | _ :: _ => true end
  | JArray _ | JObject _ => true
  end.

Inductive SyntaxError : Type := Build_SyntaxError.

(** Line 39: [JSON.parse(localStorage.getItem('taxHistory')) || []].  An
    absent key reads as [null], which [JSON.parse] turns into the text
    ["null"]. *)
Definition loadHistory (taxHistory : option string) : SyntaxError + json :=
  let text := match taxHistory with Some s => s | None => "null"%string end in
  match JSON_parse text with
  | None => inl Build_SyntaxError
  | Some v => inr (if json_truthy v then v else JArray [])
  end.


(** ** Well-formed bracket sequences and the words of the specification *)

(** A finite, non-negative binary64 value in canonical form. *)
Definition amount (x : number) : bool :=
  valid_binary prec emax x && le (ofZ 0) x && lt x Infinity.

(** [chained lo brackets]: the first bracket starts at [lo], every bracket
    ends where the next one starts, no bracket ends before it starts, the
    last one is unbounded, and every rate is a canonical value of [[0,1)]. *)
Fixpoint chained (lo : number) (brackets : list TaxBracket) : bool :=
  match brackets with
  | [] => SFeqb lo Infinity
  | b :: rest =>
      SFeqb (TaxBracket.min b) lo
      && valid_binary prec emax (TaxBracket.min b)
      && valid_binary prec emax (TaxBracket.max b)
      && le (TaxBracket.min b) (TaxBracket.max b)
      && valid_binary prec emax (TaxBracket.rate b)
      && le (ofZ 0) (TaxBracket.rate b) && lt (TaxBracket.rate b) (ofZ 1)
      && chained (TaxBracket.max b) rest
  end.

(** The brackets tile the non-negative amounts from [0] upwards. *)
Definition well_formed (brackets : list TaxBracket) : bool :=
  chained (ofZ 0) brackets.

(** The federal tax in the words of the specification: the brackets whose
    [min] the income exceeds, the part of the income each of them taxes at
    its rate, and the total of these parts rounded to two decimals. *)
Definition exceeds_min (taxableIncome : number) (b : TaxBracket) : bool :=
  gt taxableIncome (TaxBracket.min b).

Definition taxed_part (taxableIncome : number) (b : TaxBracket) : number :=
  mul (sub (Math_min taxableIncome (TaxBracket.max b)) (TaxBracket.min b))
      (TaxBracket.rate b).

Definition total (parts : list number) : number := fold_left add parts (ofZ 0).

Definition federalTax_spec (taxableIncome : number) (brackets : list TaxBracket) : number :=
  let t := total (map (taxed_part taxableIncome)
                      (List.filter (exceeds_min taxableIncome) brackets)) in
  div (Math_round (mul t (ofZ 100))) (ofZ 100).

(** The marginal rate in the words of the specification. *)
Definition within (taxableIncome : number) (b : TaxBracket) : bool :=
  le (TaxBracket.min b) taxableIncome && lt taxableIncome (TaxBracket.max b).

(** The scenario of the specification. *)
Definition form_50000 : Form.t :=
  {| Form.income := ofZ 50000; Form.filingStatus := "single";
     Form.deductions := ofZ 0; Form.state := "low" |}.

Definition new_calculator : TaxCalculator :=
  {| TaxCalculator.history := []; TaxCalculator.taxHistory := None |}.


(** ** The order of binary64 values

    [SFcompare] orders two numbers by sign, then exponent, then mantissa.
    [key] sends a number to a triple of integers that the lexicographic
    order compares the same way. *)

Definition key (x : number) : Z * Z * Z :=
  match x with
  | S754_nan => (0, 0, 0)
  | S754_zero _ => (0, 0, 0)
  | S754_infinity true => (-2, 0, 0)
  | S754_infinity false => (2, 0, 0)
  | S754_finite true m e => (-1, - e, Zneg m)
  | S754_finite false m e => (1, e, Zpos m)
  end%Z.

Definition key_lt (a b : Z * Z * Z) : Prop :=
  let '(c1, e1, m1) := a in
  let '(c2, e2, m2) := b in
  (c1 < c2 \/ (c1 = c2 /\ (e1 < e2 \/ (e1 = e2 /\ m1 < m2))))%Z.

Definition is_number (x : number) : Prop := x <> NaN.

(** ** Rounding to binary64, exactly

    The notions used to reason about what the arithmetic of [SpecFloat]
    computes: the integer nearest to a quotient, the exponent at which a
    value is rounded, and the number obtained. *)

Module Exact.

Local Open Scope Z_scope.

(** Rounding the quotient [a / b] to the nearest integer, ties to even. *)
Definition rneQ (a b : Z) : Z :=
  let q := a / b in
  let r := a mod b in
  if 2 * r <? b then q
  else if b <? 2 * r then q + 1
  else if Z.even q then q else q + 1.

(** The record [mrs] holds the quotient of [a] by [b], and its two flags
    tell where the remainder lies with respect to the half of [b]. *)
Definition located (mrs : shr_record) (a b : Z) : Prop :=
  shr_m mrs = a / b
  /\ shr_r mrs = (b <=? 2 * (a mod b))
  /\ shr_s mrs = negb (a mod b =? 0) && negb (2 * (a mod b) =? b).

Definition fexp64 (x : Z) : Z := Z.max (x - 53) (-1074).

(** What [binary_round_aux] does after the first shift and the rounding:
    the second normalisation and the packing of the result. *)
Definition finish (n E : Z) : number :=
  let '(mrs, e) := shr_fexp prec emax n E loc_Exact in
  match shr_m mrs with
  | Z0 => S754_zero false
  | Zpos m => if e <=? emax - prec then S754_finite false m e else S754_infinity false
  | Zneg _ => S754_nan
  end.

(** The packed result for a mantissa [n] at exponent [E]. *)
Definition pack (n E : Z) : number :=
  match n with
  | Zpos p => if E <=? 971 then S754_finite false p E else S754_infinity false
  | _ => S754_zero false
  end.

(** A mantissa and an exponent that [pack] turns into a canonical number. *)
Definition packable (n E : Z) : Prop :=
  -1074 <= E /\ 0 <= n < 2 ^ 53 /\ (2 ^ 52 <= n \/ E = -1074).

(** The exponent at which the positive value [(a / b) * 2^e] is rounded. *)
Definition target (a b e : Z) : Z := fexp64 (Zdigits2 (a / b) + e).

(** Mantissa and exponent after the carry of a rounding up to [2^53]. *)
Definition carry (n E : Z) : Z * Z :=
  if n =? 2 ^ 53 then (2 ^ 52, E + 1) else (n, E).

Definition rounded (a b e : Z) : Z * Z :=
  carry (rneQ a (b * 2 ^ (target a b e - e))) (target a b e).

(** The binary64 number nearest to [(a / b) * 2^e]. *)
Definition RQ (a b e : Z) : number :=
  pack (fst (rounded a b e)) (snd (rounded a b e)).

(** Two numbers that compare alike: equal, or zeros of either sign. *)
Definition sim (x y : number) : Prop :=
  is_number x /\ is_number y /\ key x = key y.

(** A finite, non-negative number in canonical form. *)
Definition fin (x : number) : Prop := amount x = true.

(** A non-negative number in canonical form, possibly [Infinity]. *)
Definition nonneg (x : number) : Prop :=
  valid_binary prec emax x = true /\ le (ofZ 0) x = true.

(** The value of a finite non-negative number in units of [2^-1074]. *)
Definition ival (x : number) : Z :=
  match x with
  | S754_finite false m e => Zpos m * 2 ^ (e + 1074)
  | _ => 0
  end.

(** The integer nearest to a finite non-negative number, the larger one at
    a tie. *)
Definition iround (x : number) : Z := (2 * ival x + 2 ^ 1074) / 2 ^ 1075.

Definition bracket_ok (b : TaxBracket) : Prop :=
  nonneg (TaxBracket.min b) /\ nonneg (TaxBracket.max b)
  /\ le (TaxBracket.min b) (TaxBracket.max b) = true
  /\ fin (TaxBracket.rate b).

End Exact.

Import Exact.

(** ** The listeners, and further notions used in the properties below *)

(** The two listeners of [initializeEventListeners]: a submission of the
    form, with the values the form holds and the date at that moment, and a
    click on the button that clears the history. *)
Inductive Event : Type :=
  | Submit (form : Form.t) (today : string)
  | ClickClearHistory.

Definition dispatch (this : TaxCalculator) (ev : Event) : TaxCalculator :=
  match ev with
  | Submit form today => snd (calculateTax this form today)
  | ClickClearHistory => clearHistory this
  end.

(** The item ['taxHistory'] mirrors [this.history]: it holds the list, or
    the key is absent and the list is empty. *)
Definition mirrored (this : TaxCalculator) : Prop :=
  TaxCalculator.taxHistory this = Some (TaxCalculator.history this)
  \/ (TaxCalculator.history this = [] /\ TaxCalculator.taxHistory this = None).

(** The entry a submission saves, read off a calculator with no history;
    [None] when the submission is rejected or throws. *)
Definition saved_entry (form : Form.t) (today : string) : option Calculation.t :=
  head (TaxCalculator.history (snd (calculateTax new_calculator form today))).

(** The calculations saved since the last clearing, the latest first, with
    no bound on their number. *)
Definition record_event (saved : list Calculation.t) (ev : Event) : list Calculation.t :=
  match ev with
  | Submit form today =>
      match saved_entry form today with
      | Some entry => entry :: saved
      | None => saved
      end
  | ClickClearHistory => []
  end.

(** [Number.isFinite]: neither [NaN] nor an infinity. *)
Definition Number_isFinite (x : number) : bool :=
  match x with
  | S754_zero _ | S754_finite _ _ _ => true
  | _ => false
  end.

(** The sign bit of a number is set: [-0], a negative finite number or
    [-Infinity]. *)
Definition sign_bit (x : number) : bool :=
  match x with
  | S754_zero s | S754_infinity s | S754_finite s _ _ => s
  | S754_nan => false
  end.

(** The rate [calculateStateTax] applies: [stateRates[state] || 0]. *)
Definition state_rate (state : string) : value number :=
  lookup_or truthy stateRates state (ofZ 0).

(** The rates do not decrease along the sequence. *)
Fixpoint ascending_rates (brackets : list TaxBracket) : bool :=
  match brackets with
  | b1 :: (b2 :: _) as rest =>
      le (TaxBracket.rate b1) (TaxBracket.rate b2) && ascending_rates rest
  | _ => true
  end.


(** * Theorems *)

(** ** Comparisons *)

Module Order.

Local Open Scope Z_scope.

Lemma SFcompare_key (x y : number) :
  match SFcompare x y with
  | None => x = NaN \/ y = NaN
  | Some Lt => is_number x /\ is_number y /\ key_lt (key x) (key y)
  | Some Eq => is_number x /\ is_number y /\ key x = key y
  | Some Gt => is_number x /\ is_number y /\ key_lt (key y) (key x)
  end.
Proof.
  unfold is_number, NaN.
  destruct x as [sx|sx| |sx mx ex], y as [sy|sy| |sy my ey];
    try destruct sx; try destruct sy; simpl; auto;
    try (repeat split; try discriminate; lia).
  - destruct (Z.compare_spec ex ey); [| repeat split; try discriminate; lia ..].
    change (Pos.compare_cont Eq mx my) with (Pos.compare mx my).
    destruct (Pos.compare_spec mx my); simpl; subst;
      repeat split; try discriminate; lia.
  - destruct (Z.compare_spec ex ey); [| repeat split; try discriminate; lia ..].
    change (Pos.compare_cont Eq mx my) with (Pos.compare mx my).
    destruct (Pos.compare_spec mx my); simpl; subst;
      repeat split; try discriminate; lia.
Qed.

Lemma lt_true (x y : number) :
  lt x y = true <-> is_number x /\ is_number y /\ key_lt (key x) (key y).
Proof.
  unfold lt, SFltb. pose proof (SFcompare_key x y) as H.
  destruct (SFcompare x y) as [[| |]|]; split; intros K; try discriminate; auto;
    exfalso; unfold is_number in *.
  - destruct H as (_ & _ & H), K as (_ & _ & K).
    destruct (key x) as [[c e] m], (key y) as [[c' e'] m'].
    injection H as -> -> ->. simpl in K. lia.
  - destruct H as (_ & _ & H), K as (_ & _ & K).
    destruct (key x) as [[c e] m], (key y) as [[c' e'] m']. simpl in *. lia.
  - destruct K as (Kx & Ky & _). destruct H; contradiction.
Qed.

Lemma le_true (x y : number) :
  le x y = true <-> is_number x /\ is_number y /\ ~ key_lt (key y) (key x).
Proof.
  unfold le, SFleb. pose proof (SFcompare_key x y) as H.
  destruct (SFcompare x y) as [[| |]|]; split; intros K; try discriminate; auto;
    unfold is_number in *.
  - destruct H as (Hx & Hy & H). repeat split; auto.
    destruct (key x) as [[c e] m], (key y) as [[c' e'] m'].
    injection H as -> -> ->. simpl. lia.
  - destruct H as (Hx & Hy & H). repeat split; auto.
    destruct (key x) as [[c e] m], (key y) as [[c' e'] m']. simpl in *. lia.
  - exfalso. destruct H as (_ & _ & H), K as (_ & _ & K). contradiction.
  - exfalso. destruct K as (Kx & Ky & _). destruct H; contradiction.
Qed.

Lemma eqb_true (x y : number) :
  SFeqb x y = true <-> is_number x /\ is_number y /\ key x = key y.
Proof.
  unfold SFeqb. pose proof (SFcompare_key x y) as H.
  destruct (SFcompare x y) as [[| |]|]; split; intros K; try discriminate; auto;
    exfalso; unfold is_number in *.
  - destruct H as (_ & _ & H), K as (_ & _ & K).
    destruct (key x) as [[c e] m], (key y) as [[c' e'] m'].
    injection K as -> -> ->. simpl in H. lia.
  - destruct H as (_ & _ & H), K as (_ & _ & K).
    destruct (key x) as [[c e] m], (key y) as [[c' e'] m'].
    injection K as -> -> ->. simpl in H. lia.
  - destruct K as (Kx & Ky & _). destruct H; contradiction.
Qed.

Lemma lt_false (x y : number) :
  is_number x -> is_number y -> lt x y = false -> le y x = true.
Proof.
  intros Hx Hy H. apply le_true. repeat split; auto.
  intros K. assert (lt x y = true) by (apply lt_true; auto). congruence.
Qed.

Lemma le_trans (x y z : number) : le x y = true -> le y z = true -> le x z = true.
Proof.
  rewrite !le_true. intros (Hx & Hy & H1) (_ & Hz & H2). repeat split; auto.
  destruct (key x) as [[c e] m], (key y) as [[c' e'] m'], (key z) as [[c'' e''] m''].
  simpl in *. lia.
Qed.

Lemma le_lt_trans (x y z : number) : le x y = true -> lt y z = true -> lt x z = true.
Proof.
  rewrite !le_true, !lt_true. intros (Hx & Hy & H1) (_ & Hz & H2). repeat split; auto.
  destruct (key x) as [[c e] m], (key y) as [[c' e'] m'], (key z) as [[c'' e''] m''].
  simpl in *. lia.
Qed.

Lemma lt_le_trans (x y z : number) : lt x y = true -> le y z = true -> lt x z = true.
Proof.
  rewrite !le_true, !lt_true. intros (Hx & Hy & H1) (_ & Hz & H2). repeat split; auto.
  destruct (key x) as [[c e] m], (key y) as [[c' e'] m'], (key z) as [[c'' e''] m''].
  simpl in *. lia.
Qed.

Lemma lt_irrefl_le (x y : number) : le x y = true -> lt y x = false.
Proof.
  intros H. destruct (lt y x) eqn:K; [| reflexivity].
  apply le_true in H. apply lt_true in K. tauto.
Qed.

Lemma lt_irrefl (x : number) : lt x x = false.
Proof.
  destruct (lt x x) eqn:K; [| reflexivity].
  apply lt_true in K. destruct K as (_ & _ & K).
  destruct (key x) as [[c e] m]. simpl in K. lia.
Qed.

Lemma eqb_le (x y : number) : SFeqb x y = true -> le x y = true /\ le y x = true.
Proof.
  rewrite eqb_true, !le_true. intros (Hx & Hy & H).
  destruct (key x) as [[c e] m], (key y) as [[c' e'] m'].
  injection H as -> -> ->. simpl. repeat split; auto; lia.
Qed.

Lemma le_number (x y : number) : le x y = true -> is_number x /\ is_number y.
Proof. rewrite le_true. tauto. Qed.

Lemma lt_le (x y : number) : lt x y = true -> le x y = true.
Proof.
  rewrite lt_true, le_true. intros (Hx & Hy & H). repeat split; auto.
  destruct (key x) as [[c e] m], (key y) as [[c' e'] m']. simpl in *. lia.
Qed.

Lemma le_refl (x : number) : is_number x -> le x x = true.
Proof.
  intros Hx. apply le_true. repeat split; auto.
  destruct (key x) as [[c e] m]. simpl. lia.
Qed.

End Order.

(** ** Evaluations

    The embedding computes: some values of the program's functions. *)

Example literal_0_12 : lit 12 2 = S754_finite false 8646911284551352 (-56).
Proof. reflexivity. Qed.

Example Math_round_ties :
  Math_round (lit 25 1) = ofZ 3 /\ Math_round (lit (-25) 1) = ofZ (-2)
  /\ Math_round (lit 5 1) = ofZ 1 /\ Math_round (lit 4 1) = ofZ 0
  /\ Math_round (lit (-5) 1) = S754_zero true.
Proof. repeat split; reflexivity. Qed.

Example federal_tax_single_36150 :
  calculateFederalTax (ofZ 36150) single_brackets = ofZ 4118.
Proof. reflexivity. Qed.

Example federal_tax_single_12345_67 :
  calculateFederalTax (lit 1234567 2) single_brackets = lit 126148 2.
Proof. reflexivity. Qed.

Example federal_tax_single_1000000 :
  calculateFederalTax (ofZ 1000000) single_brackets = ofZ 330336.
Proof. reflexivity. Qed.

Example federal_tax_marriedJointly_100000 :
  calculateFederalTax (ofZ 100000) marriedJointly_brackets = ofZ 12615.
Proof. reflexivity. Qed.

Example state_tax_medium :
  calculateStateTax (lit 3333333 2) "medium" = ofZ 2000.
Proof. reflexivity. Qed.

Example state_tax_unknown_category :
  calculateStateTax (ofZ 50000) "elsewhere" = ofZ 0.
Proof. reflexivity. Qed.

(** A key that names a member of [Object.prototype] finds that member. *)
Example state_tax_inherited_name :
  calculateStateTax (ofZ 50000) "toString" = NaN.
Proof. reflexivity. Qed.

Example lookups_by_filing_status :
  resolve_brackets "marriedJointly" = Value marriedJointly_brackets
  /\ resolve_brackets "headOfHousehold" = Value single_brackets
  /\ resolve_brackets "valueOf" = Member "valueOf"
  /\ resolve_deductions "headOfHousehold" NaN = Value (ofZ 20800)
  /\ resolve_deductions "widow" NaN = Value (ofZ 13850)
  /\ resolve_deductions "__proto__" NaN = Member "__proto__"
  /\ resolve_deductions "__proto__" (ofZ 5000) = Value (ofZ 5000).
Proof. repeat split; reflexivity. Qed.

Example tables_are_well_formed :
  well_formed single_brackets = true /\ well_formed marriedJointly_brackets = true.
Proof. split; reflexivity. Qed.

(** At [Infinity], which no bracket contains, the loop of [getMarginalRate]
    ends without a match and the rate of the last bracket is returned. *)
Example marginal_rate_at_Infinity :
  first_match Infinity single_brackets = None
  /\ getMarginalRate Infinity single_brackets = Some (lit 37 2).
Proof. split; reflexivity. Qed.

Example history_push_eleventh :
  history_push [10; 9; 8; 7; 6; 5; 4; 3; 2; 1] 11 = [11; 10; 9; 8; 7; 6; 5; 4; 3; 2].
Proof. reflexivity. Qed.

Example JSON_parse_values :
  JSON_parse "[1, 2.5e-3, true, null, {}]"
  = Some (JArray [JNumber false 1 0; JNumber false 25 (-4); JBool true; JNull; JObject []])
  /\ JSON_parse " null " = Some JNull
  /\ JSON_parse "[1,]" = None
  /\ JSON_parse "01" = None
  /\ JSON_parse "undefined" = None.
Proof. repeat split; reflexivity. Qed.

Example loadHistory_values :
  loadHistory None = inr (JArray [])
  /\ loadHistory (Some "[]"%string) = inr (JArray [])
  /\ loadHistory (Some "1e-400"%string) = inr (JArray [])
  /\ loadHistory (Some "undefined"%string) = inl Build_SyntaxError.
Proof. repeat split; reflexivity. Qed.

(** ** Lookups in the tables *)

Lemma standardDeductions2024_truthy (filingStatus : string) (d : number) :
  standardDeductions2024 !! filingStatus = Some d -> truthy d = true.
Proof.
  unfold standardDeductions2024.
  repeat (rewrite lookup_insert; case_decide; [intros [= <-]; reflexivity |]).
  rewrite lookup_empty. discriminate.
Qed.

Lemma resolve_brackets_cases (filingStatus : string) :
  (inherited filingStatus = false
   /\ (resolve_brackets filingStatus = Value single_brackets
       \/ resolve_brackets filingStatus = Value marriedJointly_brackets))
  \/ (inherited filingStatus = true
      /\ resolve_brackets filingStatus = Member filingStatus).
Proof.
  unfold resolve_brackets, lookup_or, taxBrackets2024.
  rewrite lookup_insert. case_decide; [subst; left; split; [reflexivity | now left] |].
  rewrite lookup_insert. case_decide; [subst; left; split; [reflexivity | now right] |].
  rewrite lookup_empty.
  destruct (inherited filingStatus); [right | left]; split; auto.
Qed.

Lemma resolve_brackets_own (filingStatus : string) :
  inherited filingStatus = false ->
  exists brackets,
    resolve_brackets filingStatus = Value brackets
    /\ (brackets = single_brackets \/ brackets = marriedJointly_brackets).
Proof.
  intros Hown.
  destruct (resolve_brackets_cases filingStatus) as [[_ [H | H]] | [H _]];
    [eauto | eauto | congruence].
Qed.

Lemma getMarginalRate_is_Some (taxableIncome : number) (brackets : list TaxBracket) :
  brackets <> [] -> exists r, getMarginalRate taxableIncome brackets = Some r.
Proof.
  intros Hne. unfold getMarginalRate.
  destruct (first_match taxableIncome brackets) as [b|]; [eauto |].
  destruct (last brackets) as [b|] eqn:Hlast; [simpl; eauto |].
  apply last_None in Hlast. contradiction.
Qed.

Lemma resolve_brackets_nonempty (filingStatus : string) :
  resolve_brackets filingStatus <> Value [].
Proof.
  destruct (resolve_brackets_cases filingStatus) as [[_ [-> | ->]] | [_ ->]];
    discriminate.
Qed.

(** ** The history list *)

Lemma take_app_take {A : Type} (n : nat) (l k : list A) :
  take n (l ++ take n k) = take n (l ++ k).
Proof.
  rewrite !take_app, take_take. do 2 f_equal. lia.
Qed.

Lemma history_push_take {A : Type} (h : list A) (c : A) :
  length h <= 10 -> history_push h c = take 10 (c :: h).
Proof.
  intros Hlen. unfold history_push.
  destruct (10 <? length (c :: h)) eqn:Hfull.
  - apply Nat.ltb_lt in Hfull. simpl in Hfull.
    assert (Heq : length (c :: h) = 11) by (simpl; lia).
    rewrite removelast_firstn_len, Heq. reflexivity.
  - apply Nat.ltb_ge in Hfull. symmetry. apply take_ge. exact Hfull.
Qed.



Lemma saveToHistory_history (this : TaxCalculator) (c : Calculation.t) :
  TaxCalculator.history (saveToHistory this c)
  = history_push (TaxCalculator.history this) c.
Proof. reflexivity. Qed.

Lemma saves_from (entries : list Calculation.t) (this : TaxCalculator) :
  length (TaxCalculator.history this) <= 10 ->
  TaxCalculator.history (fold_left saveToHistory entries this)
  = take 10 (rev entries ++ TaxCalculator.history this).
Proof.
  revert this. induction entries as [|c entries IH]; intros this Hlen.
  - simpl. symmetry. apply take_ge. exact Hlen.
  - simpl fold_left. rewrite IH.
    + rewrite saveToHistory_history, history_push_take by exact Hlen.
      simpl rev. rewrite <- app_assoc. apply take_app_take.
    + rewrite saveToHistory_history, history_push_take by exact Hlen.
      rewrite length_take. lia.
Qed.

(** C3. Starting from the empty history, after any finite sequence of
    calls of [saveToHistory] the history holds at most 10 entries, and they
    are the 10 entries saved last (all of them when fewer were saved),
    the most recent one first. *)
Theorem C3_history_is_last_ten (entries : list Calculation.t) :
  let this := fold_left saveToHistory entries new_calculator in
  TaxCalculator.history this = take 10 (rev entries)
  /\ length (TaxCalculator.history this) <= 10.
Proof.
  simpl. rewrite saves_from by (simpl; lia).
  simpl. rewrite app_nil_r. split; [reflexivity |].
  rewrite length_take. lia.
Qed.

(** C2. The scenario income 50000, single, no custom deductions, state
    [low]: the deductions are 13850, the taxable income 36150, the federal
    tax 4118.00, the state tax 1500.00, the total tax 5618.00, the income
    after tax 44382.00 and the marginal rate 0.12. *)
Theorem C2_scenario_50000_single_low (this : TaxCalculator) (today : string) :
  exists results breakdown,
    fst (calculateTax this form_50000 today) = Displayed results breakdown
    /\ Results.deductions results = ofZ 13850
    /\ Results.taxableIncome results = ofZ 36150
    /\ Results.federalTax results = lit 411800 2
    /\ Results.stateTax results = lit 150000 2
    /\ Results.totalTax results = lit 561800 2
    /\ Results.afterTaxIncome results = lit 4438200 2
    /\ Breakdown.marginalRate breakdown = lit 12 2.
Proof.
  eexists. eexists. split; [vm_compute; reflexivity |].
  repeat split; vm_compute; reflexivity.
Qed.

(** C5. When the income field is zero or absent ([NaN] after
    [parseFloat]), or no filing status is selected, [calculateTax] alerts
    the user and returns: nothing is displayed, and the history and the
    stored item are what they were. *)
Theorem C5_invalid_input_rejected (this : TaxCalculator) (form : Form.t) (today : string) :
  truthy (Form.income form) = false \/ Form.filingStatus form = ""%string ->
  calculateTax this form today
  = (Alert "Please enter your income and filing status.", this).
Proof.
  intros [Hincome | Hstatus]; unfold calculateTax.
  - unfold or_else. rewrite Hincome. reflexivity.
  - rewrite Hstatus. rewrite orb_true_r. reflexivity.
Qed.

Lemma C5_invalid_input_rejected_witness :
  calculateTax new_calculator
    {| Form.income := ofZ 0; Form.filingStatus := "single";
       Form.deductions := NaN; Form.state := "none" |} "11/2/2026"
  = (Alert "Please enter your income and filing status.", new_calculator).
Proof. apply C5_invalid_input_rejected. left. reflexivity. Defined.

Lemma resolve_deductions_cases (filingStatus : string) (customDeductions : number) :
  resolve_deductions filingStatus customDeductions
  = if truthy customDeductions then Value customDeductions
    else match standardDeductions2024 !! filingStatus with
         | Some standard => Value standard
         | None => if inherited filingStatus then Member filingStatus
                   else Value (ofZ 13850)
         end.
Proof.
  unfold resolve_deductions, lookup_or, or_else.
  destruct (truthy customDeductions) eqn:Hcustom.
  - rewrite Hcustom. reflexivity.
  - simpl. destruct (standardDeductions2024 !! filingStatus) as [d|] eqn:Hd;
      [| reflexivity].
    now rewrite (standardDeductions2024_truthy _ _ Hd).
Qed.

(** C6. The deduction resolver at a filing status that the deduction table
    does not list and [Object.prototype] does: the read
    [standardDeductions2024["constructor"]] finds the inherited function,
    which is truthy, so [|| 13850] does not take over.  With the deductions
    field empty the deductions are that function and not 13850, and the
    taxable income computed from them is [NaN]. *)
Theorem C6_inherited_status_escapes_fallback :
  standardDeductions2024 !! "constructor"%string = None
  /\ resolve_deductions "constructor" NaN = Member "constructor"
  /\ resolve_deductions "constructor" NaN <> Value (ofZ 13850)
  /\ Math_max (ofZ 0) (sub (ofZ 50000) (ToNumber (resolve_deductions "constructor" NaN)))
     = NaN.
Proof. repeat split; try reflexivity. discriminate. Qed.

Lemma calculateTax_proceeds (this : TaxCalculator) (form : Form.t) (today : string) :
  truthy (Form.income form) = true ->
  Form.filingStatus form <> ""%string ->
  inherited (Form.filingStatus form) = false ->
  exists results breakdown entry,
    calculateTax this form today
    = (Displayed results breakdown, saveToHistory this entry)
    /\ Results.income results = Form.income form
    /\ Results.deductions results
       = resolve_deductions (Form.filingStatus form) (Form.deductions form)
    /\ resolve_brackets (Form.filingStatus form) = Value (Results.brackets results)
    /\ Calculation.income entry = Form.income form
    /\ Calculation.filingStatus entry = Form.filingStatus form
    /\ Calculation.date entry = today.
Proof.
  intros Hincome Hstatus Hown. unfold calculateTax.
  assert (Hor : or_else (Form.income form) (ofZ 0) = Form.income form)
    by (unfold or_else; now rewrite Hincome).
  rewrite Hor, Hincome.
  apply String.eqb_neq in Hstatus. rewrite Hstatus. simpl orb. cbv iota.
  destruct (resolve_brackets_own _ Hown) as (brackets & Hbrackets & Hcases).
  rewrite Hbrackets.
  unfold displayBreakdown. cbn [Results.taxableIncome Results.brackets].
  destruct (getMarginalRate_is_Some
              (Math_max (ofZ 0)
                 (sub (Form.income form)
                    (ToNumber (resolve_deductions (Form.filingStatus form)
                                 (Form.deductions form)))))
              brackets) as [r Hr].
  { destruct Hcases as [-> | ->]; discriminate. }
  rewrite Hr. do 3 eexists. split; [reflexivity |]. repeat split.
Qed.

(** A filing status that names a member of [Object.prototype] passes the
    validation and stops the calculation at the loop of
    [calculateFederalTax]. *)
Lemma calculateTax_throws (this : TaxCalculator) (form : Form.t) (today : string) :
  truthy (Form.income form) = true ->
  inherited (Form.filingStatus form) = true ->
  calculateTax this form today = (TypeError, this).
Proof.
  intros Hincome Hinh. unfold calculateTax.
  assert (Hor : or_else (Form.income form) (ofZ 0) = Form.income form)
    by (unfold or_else; now rewrite Hincome).
  rewrite Hor, Hincome.
  assert (Hstatus : String.eqb (Form.filingStatus form) "" = false).
  { destruct (String.eqb_spec (Form.filingStatus form) "") as [E |]; [| reflexivity].
    rewrite E in Hinh. discriminate. }
  rewrite Hstatus. simpl orb. cbv iota.
  destruct (resolve_brackets_cases (Form.filingStatus form)) as [[H _] | [_ ->]];
    [congruence | reflexivity].
Qed.

(** C9. For the filing status [marriedSeparately] the bracket table has no
    entry, so the calculation uses the brackets of [single]; the deduction
    table does have an entry, so without custom deductions the deductions
    are its 13850.  The two lookups fall back independently. *)
Theorem C9_marriedSeparately_lookups (this : TaxCalculator) (form : Form.t) (today : string) :
  Form.filingStatus form = "marriedSeparately"%string ->
  truthy (Form.income form) = true ->
  taxBrackets2024 !! "marriedSeparately"%string = None
  /\ standardDeductions2024 !! "marriedSeparately"%string = Some (ofZ 13850)
  /\ exists results breakdown,
       fst (calculateTax this form today) = Displayed results breakdown
       /\ Results.brackets results = single_brackets
       /\ (truthy (Form.deductions form) = false ->
           Results.deductions results = ofZ 13850).
Proof.
  intros Hstatus Hincome.
  split; [reflexivity |]. split; [reflexivity |].
  destruct (calculateTax_proceeds this form today Hincome) as
    (results & breakdown & entry & Hcalc & _ & Hded & Hbr & _).
  { rewrite Hstatus. discriminate. }
  { rewrite Hstatus. reflexivity. }
  exists results, breakdown. rewrite Hcalc. split; [reflexivity |].
  rewrite Hstatus in Hbr, Hded. split; [now injection Hbr |].
  intros Hcustom. rewrite Hded, resolve_deductions_cases, Hcustom. reflexivity.
Qed.


Lemma negative_truthy (x : number) : lt x (ofZ 0) = true -> truthy x = true.
Proof. destruct x as [s|s| |s m e]; try reflexivity; discriminate. Qed.

(** C10. A negative income passes the validation, and so does the filing
    status [constructor], which is not empty; but the bracket table then
    yields the inherited function instead of an array, and the loop of
    [calculateFederalTax] throws a [TypeError]: no result is displayed, no
    entry is saved, and the history and the stored item stay what they
    were. *)
Theorem C10_inherited_status_throws (this : TaxCalculator) (today : string) :
  let form := {| Form.income := ofZ (-5); Form.filingStatus := "constructor";
                 Form.deductions := NaN; Form.state := "low" |} in
  lt (Form.income form) (ofZ 0) = true
  /\ Form.filingStatus form <> ""%string
  /\ resolve_brackets (Form.filingStatus form) = Member "constructor"
  /\ calculateTax this form today = (TypeError, this).
Proof.
  simpl. split; [reflexivity |]. split; [discriminate |]. split; [reflexivity |].
  apply calculateTax_throws; reflexivity.
Qed.

(** ** Loading the history *)

(** C4, as the specification states it, fails: a stored text that is not
    JSON, here what storing an object without [JSON.stringify] leaves
    behind, makes [JSON.parse] throw, and the constructor does not catch the
    [SyntaxError]. *)
Lemma C4_malformed_content_throws :
  let text := "[object Object]"%string in
  JSON_parse text = None
  /\ loadHistory (Some text) = inl Build_SyntaxError
  /\ loadHistory (Some text) <> inr (JArray []).
Proof. vm_compute. repeat split. discriminate. Qed.

(** C4, amended. An absent item yields the empty history, and so does an
    item whose text parses to a falsy value.  A text that [JSON.parse]
    rejects makes the load end in a [SyntaxError], which surfaces to the
    caller of the constructor. *)
Theorem C4_load_absent_or_malformed :
  loadHistory None = inr (JArray [])
  /\ (forall text v,
        JSON_parse text = Some v -> json_truthy v = false ->
        loadHistory (Some text) = inr (JArray []))
  /\ (forall text,
        JSON_parse text = None -> loadHistory (Some text) = inl Build_SyntaxError).
Proof.
  split; [reflexivity |]. split.
  - intros text v Hparse Hfalsy. unfold loadHistory. now rewrite Hparse, Hfalsy.
  - intros text Hparse. unfold loadHistory. now rewrite Hparse.
Qed.

Lemma C4_load_absent_or_malformed_witness :
  loadHistory (Some "0.0"%string) = inr (JArray [])
  /\ loadHistory (Some "{not json"%string) = inl Build_SyntaxError.
Proof.
  split.
  - apply (proj1 (proj2 C4_load_absent_or_malformed) "0.0"%string (JNumber false 0 (-1)));
      reflexivity.
  - apply (proj2 (proj2 C4_load_absent_or_malformed) "{not json"%string). reflexivity.
Defined.


(** ** The federal tax as a sum over the applicable brackets *)

Lemma fold_federal_step (taxableIncome : number) (brackets : list TaxBracket) (tax : number) :
  fold_left (federal_step taxableIncome) brackets tax
  = fold_left add
      (map (taxed_part taxableIncome)
           (List.filter (exceeds_min taxableIncome) brackets))
      tax.
Proof.
  revert tax. induction brackets as [|b brackets IH]; intros tax; [reflexivity |].
  simpl fold_left. rewrite IH. simpl List.filter.
  unfold federal_step at 1, exceeds_min at 2.
  destruct (gt taxableIncome (TaxBracket.min b)); reflexivity.
Qed.

Lemma chained_min_above (brackets : list TaxBracket) (lo : number) (b : TaxBracket) :
  chained lo brackets = true -> In b brackets -> le lo (TaxBracket.min b) = true.
Proof.
  revert lo. induction brackets as [|b1 rest IH]; intros lo Hch Hin; [destruct Hin |].
  simpl in Hch. repeat (apply andb_prop in Hch; destruct Hch as [Hch ?]).
  apply Order.eqb_le in Hch. destruct Hch as [Hle1 Hle2].
  destruct Hin as [<- | Hin]; [exact Hle2 |].
  apply (Order.le_trans _ (TaxBracket.min b1)); [exact Hle2 |].
  apply (Order.le_trans _ (TaxBracket.max b1)); [assumption |].
  apply IH; assumption.
Qed.

Lemma zero_exceeds_no_min (brackets : list TaxBracket) :
  well_formed brackets = true ->
  List.filter (exceeds_min (ofZ 0)) brackets = [].
Proof.
  intros Hwf. unfold well_formed in Hwf.
  assert (Hall : forall b, In b brackets -> exceeds_min (ofZ 0) b = false).
  { intros b Hin. unfold exceeds_min, gt. apply Order.lt_irrefl_le.
    apply (chained_min_above brackets); assumption. }
  clear Hwf. induction brackets as [|b rest IH]; [reflexivity |].
  simpl. rewrite Hall by now left.
  apply IH. intros b' Hin. apply Hall. now right.
Qed.

(** C1. The federal tax is the total, over the brackets whose [min] the
    taxable income exceeds, taken in order, of
    [(min(taxableIncome, max) - min) * rate], multiplied by 100, rounded to
    the nearest integer and divided by 100.  For a well-formed bracket
    sequence a taxable income of 0 yields a tax of 0. *)
Theorem C1_federal_tax_is_rounded_sum (taxableIncome : number) (brackets : list TaxBracket) :
  calculateFederalTax taxableIncome brackets = federalTax_spec taxableIncome brackets
  /\ (well_formed brackets = true -> calculateFederalTax (ofZ 0) brackets = ofZ 0).
Proof.
  split.
  - unfold calculateFederalTax, federalTax_spec, round2, total.
    now rewrite fold_federal_step.
  - intros Hwf. unfold calculateFederalTax.
    rewrite fold_federal_step, zero_exceeds_no_min by exact Hwf.
    reflexivity.
Qed.

Lemma C1_federal_tax_is_rounded_sum_witness :
  calculateFederalTax (ofZ 36150) single_brackets = federalTax_spec (ofZ 36150) single_brackets
  /\ calculateFederalTax (ofZ 0) single_brackets = ofZ 0.
Proof.
  split.
  - apply (C1_federal_tax_is_rounded_sum (ofZ 36150) single_brackets).
  - apply (C1_federal_tax_is_rounded_sum (ofZ 0) single_brackets). reflexivity.
Defined.

(** ** The marginal rate *)

Lemma first_match_first (taxableIncome : number) (brackets : list TaxBracket) (b : TaxBracket) :
  first_match taxableIncome brackets = Some b ->
  exists before after,
    brackets = before ++ b :: after
    /\ Forall (fun b' => within taxableIncome b' = false) before
    /\ within taxableIncome b = true.
Proof.
  induction brackets as [|b1 rest IH]; [discriminate |].
  cbn [first_match].
  change (ge taxableIncome (TaxBracket.min b1) && lt taxableIncome (TaxBracket.max b1))
    with (within taxableIncome b1).
  destruct (within taxableIncome b1) eqn:Hw.
  - intros [= <-]. exists [], rest. repeat split; auto.
  - intros Hrest. destruct (IH Hrest) as (before & after & -> & Hall & Hb).
    exists (b1 :: before), after. repeat split; auto.
Qed.

Lemma chained_first_match (brackets : list TaxBracket) (lo taxableIncome : number) :
  chained lo brackets = true ->
  le lo taxableIncome = true -> lt taxableIncome Infinity = true ->
  first_match taxableIncome brackets <> None.
Proof.
  revert lo. induction brackets as [|b rest IH]; intros lo Hch Hlo Hfin.
  - simpl in Hch. apply Order.eqb_le in Hch. destruct Hch as [_ Hinf].
    assert (Habs : lt taxableIncome taxableIncome = true).
    { apply (Order.lt_le_trans _ Infinity); [exact Hfin |].
      apply (Order.le_trans _ lo); assumption. }
    rewrite Order.lt_irrefl in Habs. discriminate.
  - simpl in Hch. repeat (apply andb_prop in Hch; destruct Hch as [Hch ?]).
    apply Order.eqb_le in Hch. destruct Hch as [Hmin _].
    cbn [first_match]. unfold ge.
    rewrite (Order.le_trans _ _ _ Hmin Hlo). cbn [andb].
    destruct (lt taxableIncome (TaxBracket.max b)) eqn:Hlt; [discriminate |].
    apply (IH (TaxBracket.max b)); auto.
    apply Order.lt_false; auto.
    + apply Order.le_number in Hlo. tauto.
    + match goal with H : le (TaxBracket.min b) (TaxBracket.max b) = true |- _ =>
        apply Order.le_number in H; tauto end.
Qed.

Lemma chained_within_unique (brackets : list TaxBracket) (lo taxableIncome : number)
    (b : TaxBracket) :
  chained lo brackets = true ->
  In b brackets -> within taxableIncome b = true ->
  first_match taxableIncome brackets = Some b.
Proof.
  revert lo. induction brackets as [|b1 rest IH]; intros lo Hch Hin Hw; [destruct Hin |].
  simpl in Hch. repeat (apply andb_prop in Hch; destruct Hch as [Hch ?]).
  cbn [first_match].
  change (ge taxableIncome (TaxBracket.min b1) && lt taxableIncome (TaxBracket.max b1))
    with (within taxableIncome b1).
  destruct Hin as [<- | Hin]; [now rewrite Hw |].
  assert (Hout : within taxableIncome b1 = false).
  { unfold within. apply andb_false_iff. right. apply Order.lt_irrefl_le.
    apply andb_prop in Hw. destruct Hw as [Hw _].
    apply (Order.le_trans _ (TaxBracket.min b)); [| exact Hw].
    apply (chained_min_above rest); assumption. }
  rewrite Hout. apply (IH (TaxBracket.max b1)); assumption.
Qed.

(** C7. For a well-formed bracket sequence and a finite taxable income that
    is at least 0, [getMarginalRate] returns the rate of the first bracket
    with [min <= taxableIncome < max]; whenever the income lies in the
    [[min, max)] of a bracket of the sequence, the result is the rate of
    that very bracket; and the loop always finds its bracket, so the
    fallback to the last bracket's rate is never taken. *)
Theorem C7_marginal_rate (taxableIncome : number) (brackets : list TaxBracket) :
  well_formed brackets = true ->
  le (ofZ 0) taxableIncome = true -> lt taxableIncome Infinity = true ->
  (exists before b after,
     brackets = before ++ b :: after
     /\ Forall (fun b' => within taxableIncome b' = false) before
     /\ within taxableIncome b = true
     /\ first_match taxableIncome brackets = Some b
     /\ getMarginalRate taxableIncome brackets = Some (TaxBracket.rate b))
  /\ (forall b, In b brackets -> within taxableIncome b = true ->
      getMarginalRate taxableIncome brackets = Some (TaxBracket.rate b)).
Proof.
  intros Hwf Hpos Hfin. split.
  - pose proof (chained_first_match brackets _ _ Hwf Hpos Hfin) as Hfound.
    destruct (first_match taxableIncome brackets) as [b|] eqn:Hfirst; [| contradiction].
    destruct (first_match_first _ _ _ Hfirst) as (before & after & Heq & Hall & Hb).
    exists before, b, after. unfold getMarginalRate. rewrite Hfirst. auto.
  - intros b Hin Hw. unfold getMarginalRate.
    now rewrite (chained_within_unique brackets _ _ _ Hwf Hin Hw).
Qed.

Lemma C7_marginal_rate_witness :
  (exists before b after,
     single_brackets = before ++ b :: after
     /\ Forall (fun b' => within (ofZ 36150) b' = false) before
     /\ within (ofZ 36150) b = true
     /\ first_match (ofZ 36150) single_brackets = Some b
     /\ getMarginalRate (ofZ 36150) single_brackets = Some (TaxBracket.rate b))
  /\ (forall b, In b single_brackets -> within (ofZ 36150) b = true ->
      getMarginalRate (ofZ 36150) single_brackets = Some (TaxBracket.rate b)).
Proof. apply (C7_marginal_rate (ofZ 36150) single_brackets); reflexivity. Defined.

Lemma C9_marriedSeparately_lookups_witness :
  taxBrackets2024 !! "marriedSeparately"%string = None
  /\ standardDeductions2024 !! "marriedSeparately"%string = Some (ofZ 13850)
  /\ exists results breakdown,
       fst (calculateTax new_calculator
              {| Form.income := ofZ 50000; Form.filingStatus := "marriedSeparately";
                 Form.deductions := NaN; Form.state := "low" |} "11/2/2026")
       = Displayed results breakdown
       /\ Results.brackets results = single_brackets
       /\ (truthy NaN = false -> Results.deductions results = ofZ 13850).
Proof.
  apply (C9_marriedSeparately_lookups new_calculator
           {| Form.income := ofZ 50000; Form.filingStatus := "marriedSeparately";
              Form.deductions := NaN; Form.state := "low" |} "11/2/2026");
    reflexivity.
Defined.

(** ** Binary64 rounding is monotone *)

Module Rounding.

Local Open Scope Z_scope.

(** ** Digits *)

Lemma digits2_pos_bounds (m : positive) :
  2 ^ (Zpos (digits2_pos m) - 1) <= Zpos m < 2 ^ Zpos (digits2_pos m).
Proof.
  induction m as [m IH | m IH |]; simpl digits2_pos.
  - rewrite Pos2Z.inj_succ, Z.pow_succ_r by lia.
    replace (Z.succ (Zpos (digits2_pos m)) - 1) with (Z.succ (Zpos (digits2_pos m) - 1)) by lia.
    rewrite Z.pow_succ_r by lia. lia.
  - rewrite Pos2Z.inj_succ, Z.pow_succ_r by lia.
    replace (Z.succ (Zpos (digits2_pos m)) - 1) with (Z.succ (Zpos (digits2_pos m) - 1)) by lia.
    rewrite Z.pow_succ_r by lia. lia.
  - simpl. lia.
Qed.

Lemma Zdigits2_bounds (q : Z) :
  0 < q -> 0 < Zdigits2 q /\ 2 ^ (Zdigits2 q - 1) <= q < 2 ^ Zdigits2 q.
Proof.
  intros Hq. destruct q as [|p|p]; try lia.
  simpl Zdigits2. split; [lia | apply digits2_pos_bounds].
Qed.

Lemma pow2_lt_inv (x y : Z) : 0 <= y -> 2 ^ x < 2 ^ y -> x < y.
Proof.
  intros Hy H. destruct (Z_lt_le_dec x y) as [|Hge]; [assumption |].
  assert (2 ^ y <= 2 ^ x) by (apply Z.pow_le_mono_r; lia). lia.
Qed.

Lemma Zdigits2_unique (q d : Z) :
  0 < d -> 2 ^ (d - 1) <= q < 2 ^ d -> Zdigits2 q = d.
Proof.
  intros Hd [Hlo Hhi].
  assert (Hq : 0 < q) by (assert (0 < 2 ^ (d - 1)) by (apply Z.pow_pos_nonneg; lia); lia).
  destruct (Zdigits2_bounds q Hq) as (Hpos & Hlo' & Hhi').
  assert (d - 1 < Zdigits2 q) by (apply pow2_lt_inv; lia).
  assert (Zdigits2 q - 1 < d) by (apply pow2_lt_inv; lia).
  lia.
Qed.

Lemma Zdigits2_nonneg (q : Z) : 0 <= Zdigits2 q.
Proof. destruct q; simpl; lia. Qed.

Lemma Zdigits2_mono (q1 q2 : Z) : 0 <= q1 <= q2 -> Zdigits2 q1 <= Zdigits2 q2.
Proof.
  intros [H1 H2]. destruct (Z.eq_dec q1 0) as [-> | Hne].
  - apply Zdigits2_nonneg.
  - destruct (Zdigits2_bounds q1 ltac:(lia)) as (_ & Hlo1 & _).
    destruct (Zdigits2_bounds q2 ltac:(lia)) as (Hp2 & _ & Hhi2).
    assert (Zdigits2 q1 - 1 < Zdigits2 q2) by (apply pow2_lt_inv; lia).
    lia.
Qed.

(** ** Shifting a located quotient *)

Lemma shr_1_nonneg (m : Z) (r s : bool) :
  0 <= m ->
  shr_1 (Build_shr_record m r s) = Build_shr_record (Z.div2 m) (Z.odd m) (r || s).
Proof.
  intros Hm. destruct m as [|p|p]; [reflexivity | | lia].
  destruct p; reflexivity.
Qed.

Lemma iter_pos_nat {A : Type} (f : A -> A) (p : positive) (x : A) :
  SpecFloat.iter_pos f p x = Nat.iter (Pos.to_nat p) f x.
Proof.
  revert x. induction p as [p IH | p IH |]; intros x; simpl SpecFloat.iter_pos.
  - rewrite !IH, Pos2Nat.inj_xI.
    replace (S (2 * Pos.to_nat p)) with (Pos.to_nat p + (Pos.to_nat p + 1))%nat by lia.
    rewrite !Nat.iter_add. reflexivity.
  - rewrite !IH, Pos2Nat.inj_xO.
    replace (2 * Pos.to_nat p)%nat with (Pos.to_nat p + Pos.to_nat p)%nat by lia.
    rewrite Nat.iter_add. reflexivity.
  - reflexivity.
Qed.

Lemma split_mod (a b : Z) :
  0 < b ->
  exists r0 bit,
    a mod (2 * b) = r0 + b * bit /\ a mod b = r0 /\ 0 <= r0 < b
    /\ (bit = 0 \/ bit = 1) /\ Z.odd (a / b) = (bit =? 1)
    /\ a / b / 2 = a / (2 * b).
Proof.
  intros Hb. exists (a mod b), ((a / b) mod 2).
  pose proof (Z.mod_pos_bound a b Hb).
  pose proof (Z.mod_pos_bound (a / b) 2 ltac:(lia)).
  rewrite (Z.mul_comm 2 b), Z.rem_mul_r by lia.
  rewrite Z.div_div by lia.
  repeat split; try lia.
  rewrite Zmod_odd. destruct (Z.odd (a / b)); reflexivity.
Qed.

Ltac bool_cases :=
  repeat match goal with
         | |- context [?x <=? ?y] => destruct (Z.leb_spec x y)
         | |- context [?x <? ?y] => destruct (Z.ltb_spec x y)
         | |- context [?x =? ?y] => destruct (Z.eqb_spec x y)
         end.

Lemma located_shr_1 (mrs : shr_record) (a b : Z) :
  0 <= a -> 0 < b -> located mrs a b -> located (shr_1 mrs) a (2 * b).
Proof.
  intros Ha Hb (Hm & Hr & Hs). destruct mrs as [m r s]. cbn [shr_m shr_r shr_s] in *.
  rewrite shr_1_nonneg by (subst m; apply Z.div_pos; lia).
  destruct (split_mod a b Hb) as (r0 & bit & Hmod & Hr0 & Hrange & Hbit & Hodd & Hdiv).
  unfold located. cbn [shr_m shr_r shr_s].
  rewrite Z.div2_div, Hm, Hdiv, Hodd, Hmod. subst r s. rewrite Hr0.
  split; [reflexivity |]. split.
  - destruct Hbit as [-> | ->]; bool_cases; simpl; try reflexivity; lia.
  - destruct Hbit as [-> | ->]; bool_cases; simpl; try reflexivity; lia.
Qed.

Lemma located_iter (n : nat) (mrs : shr_record) (a b : Z) :
  0 <= a -> 0 < b -> located mrs a b ->
  located (Nat.iter n shr_1 mrs) a (b * 2 ^ Z.of_nat n).
Proof.
  intros Ha Hb Hloc. induction n as [|n IH].
  - simpl. now rewrite Z.mul_1_r.
  - change (Nat.iter (S n) shr_1 mrs) with (shr_1 (Nat.iter n shr_1 mrs)).
    rewrite Nat2Z.inj_succ, Z.pow_succ_r by lia.
    replace (b * (2 * 2 ^ Z.of_nat n)) with (2 * (b * 2 ^ Z.of_nat n)) by lia.
    apply located_shr_1; [exact Ha | | exact IH].
    apply Z.mul_pos_pos; [lia | apply Z.pow_pos_nonneg; lia].
Qed.

Lemma located_shr (mrs : shr_record) (a b e k : Z) :
  0 <= a -> 0 < b -> 0 <= k -> located mrs a b ->
  exists mrs', shr mrs e k = (mrs', e + k) /\ located mrs' a (b * 2 ^ k).
Proof.
  intros Ha Hb Hk Hloc. destruct k as [|p|p]; [| | lia].
  - exists mrs. split; [simpl; f_equal; lia |]. now rewrite Z.mul_1_r.
  - unfold shr. rewrite iter_pos_nat. eexists. split; [reflexivity |].
    rewrite <- (positive_nat_Z p). now apply located_iter.
Qed.

Lemma located_round (mrs : shr_record) (a b : Z) :
  0 < b -> located mrs a b ->
  round_nearest_even (shr_m mrs) (loc_of_shr_record mrs) = rneQ a b.
Proof.
  intros Hb (Hm & Hr & Hs). destruct mrs as [m r s]. cbn [shr_m shr_r shr_s] in *.
  pose proof (Z.mod_pos_bound a b Hb) as Hrange.
  unfold rneQ. subst m r s. cbn [loc_of_shr_record].
  bool_cases; simpl; try reflexivity; lia.
Qed.

Lemma located_exact (m : Z) : located (shr_record_of_loc m loc_Exact) m 1.
Proof.
  unfold located. simpl. rewrite Z.div_1_r, Z.mod_1_r. auto.
Qed.


(** ** Rounding a quotient to the nearest integer *)

Lemma rneQ_bounds (a b : Z) : a / b <= rneQ a b <= a / b + 1.
Proof.
  unfold rneQ.
  repeat match goal with
         | |- context [if ?c then _ else _] => destruct c
         end; lia.
Qed.

Lemma rneQ_spec (a b : Z) :
  0 < b ->
  (2 * rneQ a b - 1) * b <= 2 * a <= (2 * rneQ a b + 1) * b
  /\ (2 * a = (2 * rneQ a b - 1) * b -> Z.even (rneQ a b) = true)
  /\ (2 * a = (2 * rneQ a b + 1) * b -> Z.even (rneQ a b) = true).
Proof.
  intros Hb. pose proof (Z.div_mod a b ltac:(lia)) as Hdiv.
  pose proof (Z.mod_pos_bound a b Hb) as Hr.
  unfold rneQ. set (q := a / b) in *. set (r := a mod b) in *.
  destruct (Z.ltb_spec (2 * r) b); [repeat split; nia |].
  destruct (Z.ltb_spec b (2 * r)); [repeat split; nia |].
  destruct (Z.even q) eqn:Hq.
  - repeat split; try nia; intros _; exact Hq.
  - assert (Hq' : Z.even (q + 1) = true).
    { rewrite Z.even_add, Hq. reflexivity. }
    repeat split; try nia; intros _; exact Hq'.
Qed.

Lemma rneQ_mono (a1 b1 a2 b2 : Z) :
  0 < b1 -> 0 < b2 -> a1 * b2 <= a2 * b1 -> rneQ a1 b1 <= rneQ a2 b2.
Proof.
  intros H1 H2 Hle.
  destruct (rneQ_spec a1 b1 H1) as ([L1 U1] & EL1 & EU1).
  destruct (rneQ_spec a2 b2 H2) as ([L2 U2] & EL2 & EU2).
  set (n1 := rneQ a1 b1) in *. set (n2 := rneQ a2 b2) in *.
  destruct (Z_le_gt_dec n1 n2) as [|Hgt]; [assumption | exfalso].
  assert (A : (2 * n1 - 1) * b1 * b2 <= 2 * a1 * b2) by nia.
  assert (B : 2 * a2 * b1 <= (2 * n2 + 1) * b1 * b2) by nia.
  assert (C : (2 * n2 + 1) * (b1 * b2) <= (2 * n1 - 1) * (b1 * b2)).
  { apply Z.mul_le_mono_nonneg_r; nia. }
  assert (D : 0 < b1 * b2) by nia.
  assert (En : n1 = n2 + 1) by nia.
  assert (E1 : 2 * a1 = (2 * n1 - 1) * b1) by nia.
  assert (E2 : 2 * a2 = (2 * n2 + 1) * b2) by nia.
  specialize (EL1 E1). specialize (EU2 E2).
  rewrite En, Z.even_add, EU2 in EL1. discriminate.
Qed.

Lemma rneQ_scale (a b c : Z) : 0 < b -> 0 < c -> rneQ (a * c) (b * c) = rneQ a b.
Proof.
  intros Hb Hc. unfold rneQ.
  rewrite Z.div_mul_cancel_r by lia.
  rewrite Z.mul_mod_distr_r by lia.
  pose proof (Z.mod_pos_bound a b Hb) as Hr.
  set (r := a mod b) in *.
  bool_cases; try reflexivity; nia.
Qed.

Lemma rneQ_range_normal (a b K : Z) :
  0 <= a -> 0 < b -> 0 <= K -> K = Zdigits2 (a / b) - 53 ->
  2 ^ 52 <= rneQ a (b * 2 ^ K) <= 2 ^ 53.
Proof.
  intros Ha Hb HK Hd.
  assert (Hq : 0 < a / b).
  { destruct (Z.eq_dec (a / b) 0) as [H0 | Hne]; [rewrite H0 in Hd; simpl in Hd; lia |].
    pose proof (Z.div_pos a b Ha Hb). lia. }
  destruct (Zdigits2_bounds _ Hq) as (_ & Hlo & Hhi).
  assert (HP : 0 < 2 ^ K) by (apply Z.pow_pos_nonneg; lia).
  replace (Zdigits2 (a / b) - 1) with (K + 52) in Hlo by lia.
  replace (Zdigits2 (a / b)) with (K + 53) in Hhi by lia.
  rewrite Z.pow_add_r in Hlo, Hhi by lia.
  pose proof (rneQ_bounds a (b * 2 ^ K)) as Hn.
  rewrite <- Z.div_div in Hn by lia.
  assert (2 ^ 52 <= a / b / 2 ^ K) by (apply Z.div_le_lower_bound; lia).
  assert (a / b / 2 ^ K < 2 ^ 53) by (apply Z.div_lt_upper_bound; lia).
  lia.
Qed.

Lemma rneQ_range_subnormal (a b K : Z) :
  0 <= a -> 0 < b -> 0 <= K -> Zdigits2 (a / b) - 53 < K ->
  0 <= rneQ a (b * 2 ^ K) <= 2 ^ 52.
Proof.
  intros Ha Hb HK Hd.
  assert (HP : 0 < 2 ^ K) by (apply Z.pow_pos_nonneg; lia).
  pose proof (rneQ_bounds a (b * 2 ^ K)) as Hn.
  rewrite <- Z.div_div in Hn by lia.
  pose proof (Z.div_pos a b Ha Hb) as Hq0.
  assert (0 <= a / b / 2 ^ K) by (apply Z.div_pos; lia).
  assert (a / b / 2 ^ K < 2 ^ 52).
  { destruct (Z.eq_dec (a / b) 0) as [-> | Hne]; [rewrite Z.div_0_l by lia; reflexivity |].
    destruct (Zdigits2_bounds (a / b) ltac:(lia)) as (_ & _ & Hhi).
    assert (Hpow : 2 ^ Zdigits2 (a / b) <= 2 ^ (K + 52)) by (apply Z.pow_le_mono_r; lia).
    rewrite Z.pow_add_r in Hpow by lia.
    apply Z.div_lt_upper_bound; lia. }
  lia.
Qed.


(** ** The second normalisation and the packing *)

Lemma fexp_fexp64 (x : Z) : fexp prec emax x = fexp64 x.
Proof. reflexivity. Qed.

Lemma pow2_53 : 2 ^ 53 = 2 * 2 ^ 52 /\ 0 < 2 ^ 52.
Proof. split; reflexivity. Qed.

Lemma digits_le_53 (p : positive) : Zpos p < 2 ^ 53 -> Zpos (digits2_pos p) <= 53.
Proof.
  intros Hp. pose proof (digits2_pos_bounds p) as [Hlo _].
  assert (Zpos (digits2_pos p) - 1 < 53) by (apply pow2_lt_inv; lia). lia.
Qed.

Lemma packable_canonical (p : positive) (E : Z) :
  packable (Zpos p) E -> fexp64 (Zpos (digits2_pos p) + E) = E.
Proof.
  intros (HE & Hn & Hcase). pose proof (digits_le_53 p ltac:(lia)) as Hd.
  unfold fexp64. destruct Hcase as [H52 | ->]; [| lia].
  change (Zpos (digits2_pos p)) with (Zdigits2 (Zpos p)).
  rewrite (Zdigits2_unique (Zpos p) 53) by (simpl Z.sub; lia). lia.
Qed.

Lemma finish_small (n E : Z) : packable n E -> finish n E = pack n E.
Proof.
  intros Hp. pose proof Hp as (HE & Hn & Hcase). destruct n as [|p|p]; [| | lia].
  - unfold finish, shr_fexp. cbn [Zdigits2]. rewrite fexp_fexp64.
    unfold fexp64. simpl Z.add.
    destruct Hcase as [? | ->]; [destruct pow2_53; lia |]. reflexivity.
  - unfold finish, shr_fexp. cbn [Zdigits2]. rewrite fexp_fexp64.
    rewrite (packable_canonical p E Hp), Z.sub_diag. reflexivity.
Qed.

Lemma finish_carry (E : Z) :
  -1074 <= E -> finish (2 ^ 53) E = pack (2 ^ 52) (E + 1).
Proof.
  intros HE. unfold finish, shr_fexp. rewrite fexp_fexp64.
  change (Zdigits2 (2 ^ 53)) with 54. unfold fexp64.
  replace (Z.max (54 + E - 53) (-1074) - E) with 1 by lia.
  reflexivity.
Qed.

Lemma pack_valid (n E : Z) :
  packable n E -> valid_binary prec emax (pack n E) = true.
Proof.
  intros Hp. pose proof Hp as (HE & Hn & Hcase).
  destruct n as [|p|p]; [reflexivity | | lia].
  unfold pack. destruct (Z.leb_spec E 971) as [Hle | Hgt]; [| reflexivity].
  unfold valid_binary, bounded, canonical_mantissa. rewrite fexp_fexp64.
  rewrite (packable_canonical p E Hp), Z.eqb_refl. apply Z.leb_le. exact Hle.
Qed.

Lemma pack_nonneg (n E : Z) : le (ofZ 0) (pack n E) = true.
Proof.
  destruct n as [|p|p]; try reflexivity.
  unfold pack. destruct (E <=? 971); reflexivity.
Qed.

(** [pack] is monotone for the lexicographic order on exponent and
    mantissa. *)
Lemma pack_le (n1 E1 n2 E2 : Z) :
  0 <= n1 -> 0 <= n2 ->
  n1 = 0 \/ (E1 < E2 /\ 0 < n2) \/ (E1 = E2 /\ n1 <= n2) ->
  le (pack n1 E1) (pack n2 E2) = true.
Proof.
  intros H1 H2 Hlex.
  destruct n1 as [|p1|p1]; [apply pack_nonneg | | lia].
  destruct n2 as [|p2|p2]; [lia | | lia].
  unfold pack.
  destruct (Z.leb_spec E1 971), (Z.leb_spec E2 971); try reflexivity; [| lia].
  apply Order.le_true. repeat split; try discriminate.
  simpl. lia.
Qed.

(** ** The rounded quotient *)

Lemma target_ge (a b e : Z) : -1074 <= target a b e.
Proof. unfold target, fexp64. lia. Qed.

Lemma rounded_packable (a b e : Z) :
  0 <= a -> 0 < b -> e <= target a b e ->
  packable (fst (rounded a b e)) (snd (rounded a b e)).
Proof.
  intros Ha Hb He. unfold rounded, carry, packable.
  pose proof (target_ge a b e) as HE. destruct pow2_53 as [P53 P52].
  destruct (Z.eqb_spec (rneQ a (b * 2 ^ (target a b e - e))) (2 ^ 53)) as [Heq | Hne];
    cbn [fst snd]; [lia |].
  destruct (Z_lt_le_dec (Zdigits2 (a / b) + e - 53) (-1074)) as [Hsub | Hnorm].
  - assert (Ht : target a b e = -1074) by (unfold target, fexp64; lia).
    pose proof (rneQ_range_subnormal a b (target a b e - e) Ha Hb ltac:(lia) ltac:(lia)).
    lia.
  - assert (Ht : target a b e = Zdigits2 (a / b) + e - 53) by (unfold target, fexp64; lia).
    pose proof (rneQ_range_normal a b (target a b e - e) Ha Hb ltac:(lia) ltac:(lia)).
    lia.
Qed.

Lemma finish_rounded (a b e : Z) :
  0 <= a -> 0 < b -> e <= target a b e ->
  finish (rneQ a (b * 2 ^ (target a b e - e))) (target a b e) = RQ a b e.
Proof.
  intros Ha Hb He. pose proof (rounded_packable a b e Ha Hb He) as Hp.
  unfold RQ. unfold rounded, carry in *.
  destruct (Z.eqb_spec (rneQ a (b * 2 ^ (target a b e - e))) (2 ^ 53)) as [Heq | Hne];
    cbn [fst snd] in *.
  - rewrite Heq. apply finish_carry. apply target_ge.
  - apply finish_small. exact Hp.
Qed.

(** [binary_round_aux] on a located quotient. *)
Lemma round_aux_RQ (q e a b : Z) (l : location) :
  0 <= a -> 0 < b -> located (shr_record_of_loc q l) a b -> e <= target a b e ->
  binary_round_aux prec emax false q e l = RQ a b e.
Proof.
  intros Ha Hb Hloc He.
  assert (Hq : q = a / b) by (destruct Hloc as [Hm _]; destruct l as [|[| |]]; exact Hm).
  unfold binary_round_aux, shr_fexp at 1. rewrite fexp_fexp64, Hq. fold (target a b e).
  rewrite <- Hq.
  destruct (located_shr _ a b e (target a b e - e) Ha Hb ltac:(lia) Hloc)
    as (mrs & Hshr & Hloc').
  rewrite Hshr.
  rewrite (located_round mrs a (b * 2 ^ (target a b e - e)));
    [| apply Z.mul_pos_pos; [lia | apply Z.pow_pos_nonneg; lia] | exact Hloc'].
  replace (e + (target a b e - e)) with (target a b e) by lia.
  apply finish_rounded; assumption.
Qed.

Lemma RQ_valid (a b e : Z) :
  0 <= a -> 0 < b -> e <= target a b e ->
  valid_binary prec emax (RQ a b e) = true /\ le (ofZ 0) (RQ a b e) = true.
Proof.
  intros Ha Hb He. split; [| apply pack_nonneg].
  apply pack_valid. now apply rounded_packable.
Qed.


(** ** Monotonicity *)

Lemma div_le_cross (a1 b1 a2 b2 : Z) :
  0 < b1 -> 0 < b2 -> a1 * b2 <= a2 * b1 -> a1 / b1 <= a2 / b2.
Proof.
  intros H1 H2 Hle. apply Z.div_le_lower_bound; [lia |].
  pose proof (Z.mul_div_le a1 b1 H1). nia.
Qed.

Lemma target_mono (a1 b1 a2 b2 e : Z) :
  0 <= a1 -> 0 < b1 -> 0 < b2 -> a1 * b2 <= a2 * b1 ->
  target a1 b1 e <= target a2 b2 e.
Proof.
  intros Ha H1 H2 Hle. unfold target, fexp64.
  pose proof (div_le_cross a1 b1 a2 b2 H1 H2 Hle).
  pose proof (Z.div_pos a1 b1 Ha H1).
  pose proof (Zdigits2_mono (a1 / b1) (a2 / b2) ltac:(lia)). lia.
Qed.

(** Rounding is monotone on quotients written at a common exponent. *)
Lemma RQ_mono_aligned (a1 b1 a2 b2 e : Z) :
  0 <= a1 -> 0 < b1 -> 0 < b2 -> e <= target a1 b1 e -> a1 * b2 <= a2 * b1 ->
  le (RQ a1 b1 e) (RQ a2 b2 e) = true.
Proof.
  intros Ha1 Hb1 Hb2 He Hle.
  assert (Ha2 : 0 <= a2) by nia.
  pose proof (target_mono a1 b1 a2 b2 e Ha1 Hb1 Hb2 Hle) as Ht.
  pose proof (rounded_packable a1 b1 e Ha1 Hb1 He) as (HE1 & Hn1 & Hc1).
  pose proof (rounded_packable a2 b2 e Ha2 Hb2 ltac:(lia)) as (HE2 & Hn2 & Hc2).
  unfold RQ. apply pack_le; [lia | lia |].
  destruct pow2_53 as [P53 P52].
  unfold rounded, carry in *.
  destruct (Z_lt_le_dec (target a1 b1 e) (target a2 b2 e)) as [Hlt | Hge].
  - (* the larger value is rounded at a higher exponent: it is normal *)
    assert (Hnorm : target a2 b2 e = Zdigits2 (a2 / b2) + e - 53)
      by (unfold target, fexp64 in *; lia).
    pose proof (rneQ_range_normal a2 b2 (target a2 b2 e - e) Ha2 Hb2 ltac:(lia) ltac:(lia))
      as Hr2.
    destruct (Z.eqb_spec (rneQ a1 (b1 * 2 ^ (target a1 b1 e - e))) (2 ^ 53)),
             (Z.eqb_spec (rneQ a2 (b2 * 2 ^ (target a2 b2 e - e))) (2 ^ 53));
      cbn [fst snd] in *; lia.
  - assert (Heq : target a1 b1 e = target a2 b2 e) by lia.
    rewrite Heq in *.
    assert (HP : 0 < 2 ^ (target a2 b2 e - e)) by (apply Z.pow_pos_nonneg; lia).
    assert (Hr : rneQ a1 (b1 * 2 ^ (target a2 b2 e - e))
                 <= rneQ a2 (b2 * 2 ^ (target a2 b2 e - e))).
    { apply rneQ_mono; [nia | nia |].
      rewrite !Z.mul_assoc. apply Z.mul_le_mono_nonneg_r; lia. }
    destruct (Z.eqb_spec (rneQ a1 (b1 * 2 ^ (target a2 b2 e - e))) (2 ^ 53)),
             (Z.eqb_spec (rneQ a2 (b2 * 2 ^ (target a2 b2 e - e))) (2 ^ 53));
      cbn [fst snd] in *; lia.
Qed.

Lemma target_scale (a b e j : Z) :
  0 <= a -> 0 < b -> 0 <= j -> e <= target a b e ->
  target (a * 2 ^ j) b (e - j) = target a b e.
Proof.
  intros Ha Hb Hj He. unfold target in *.
  assert (HJ : 0 < 2 ^ j) by (apply Z.pow_pos_nonneg; lia).
  pose proof (Z.div_pos a b Ha Hb) as Hq0.
  pose proof (Z.mul_div_le a b Hb) as Hlow.
  pose proof (Z.mul_succ_div_gt a b Hb) as Hup.
  assert (Hq'lo : a / b * 2 ^ j <= a * 2 ^ j / b) by (apply Z.div_le_lower_bound; nia).
  assert (Hq'hi : a * 2 ^ j / b < (a / b + 1) * 2 ^ j)
    by (apply Z.div_lt_upper_bound; nia).
  destruct (Z.eq_dec (a / b) 0) as [H0 | Hne].
  - rewrite H0 in *. simpl Zdigits2 in *. unfold fexp64 in He.
    assert (Hd : Zdigits2 (a * 2 ^ j / b) <= j).
    { destruct (Z.eq_dec (a * 2 ^ j / b) 0) as [-> | Hne']; [simpl; lia |].
      assert (Hpos : 0 < a * 2 ^ j / b) by nia.
      destruct (Zdigits2_bounds _ Hpos) as (_ & Hlo & _).
      assert (Zdigits2 (a * 2 ^ j / b) - 1 < j) by (apply pow2_lt_inv; lia). lia. }
    unfold fexp64. lia.
  - destruct (Zdigits2_bounds (a / b) ltac:(lia)) as (Hd & Hlo & Hhi).
    rewrite (Zdigits2_unique (a * 2 ^ j / b) (Zdigits2 (a / b) + j)).
    + f_equal. lia.
    + lia.
    + replace (Zdigits2 (a / b) + j - 1) with (Zdigits2 (a / b) - 1 + j) by lia.
      rewrite !Z.pow_add_r by lia. split; nia.
Qed.

Lemma RQ_scale (a b e j : Z) :
  0 <= a -> 0 < b -> 0 <= j -> e <= target a b e ->
  RQ (a * 2 ^ j) b (e - j) = RQ a b e.
Proof.
  intros Ha Hb Hj He. unfold RQ, rounded.
  rewrite (target_scale a b e j Ha Hb Hj He).
  replace (target a b e - (e - j)) with (target a b e - e + j) by lia.
  rewrite Z.pow_add_r, Z.mul_assoc by lia.
  rewrite rneQ_scale; [reflexivity | | apply Z.pow_pos_nonneg; lia].
  apply Z.mul_pos_pos; [lia | apply Z.pow_pos_nonneg; lia].
Qed.

(** Rounding is monotone: [c] is any exponent below the two given ones, at
    which the two quotients are compared. *)
Lemma RQ_mono (a1 b1 e1 a2 b2 e2 c : Z) :
  0 <= a1 -> 0 <= a2 -> 0 < b1 -> 0 < b2 ->
  e1 <= target a1 b1 e1 -> e2 <= target a2 b2 e2 ->
  c <= e1 -> c <= e2 ->
  a1 * 2 ^ (e1 - c) * b2 <= a2 * 2 ^ (e2 - c) * b1 ->
  le (RQ a1 b1 e1) (RQ a2 b2 e2) = true.
Proof.
  intros Ha1 Ha2 Hb1 Hb2 He1 He2 Hc1 Hc2 Hle.
  rewrite <- (RQ_scale a1 b1 e1 (e1 - c)) by lia.
  rewrite <- (RQ_scale a2 b2 e2 (e2 - c)) by lia.
  replace (e1 - (e1 - c)) with c by lia. replace (e2 - (e2 - c)) with c by lia.
  apply RQ_mono_aligned; try assumption.
  - apply Z.mul_nonneg_nonneg; [lia | apply Z.pow_nonneg; lia].
  - pose proof (target_scale a1 b1 e1 (e1 - c) Ha1 Hb1 ltac:(lia) He1) as T.
    replace (e1 - (e1 - c)) with c in T by lia. lia.
Qed.


(** ** Numbers as rounded values *)

Lemma low_target (a b e : Z) : e <= -1074 -> e <= target a b e.
Proof. pose proof (target_ge a b e). lia. Qed.

Lemma RQ_cancel (a b c e : Z) :
  0 < b -> 0 < c -> e <= target a b e -> RQ (a * c) (b * c) e = RQ a b e.
Proof.
  intros Hb Hc He. unfold RQ, rounded, target in *.
  rewrite Z.div_mul_cancel_r by lia.
  set (K := fexp64 (Zdigits2 (a / b) + e) - e).
  replace (b * c * 2 ^ K) with (b * 2 ^ K * c) by lia.
  rewrite rneQ_scale; [reflexivity | | lia].
  apply Z.mul_pos_pos; [lia | apply Z.pow_pos_nonneg; lia].
Qed.

Lemma bounded_facts (m : positive) (e : Z) :
  bounded prec emax m e = true ->
  fexp64 (Zpos (digits2_pos m) + e) = e /\ e <= 971 /\ -1074 <= e
  /\ Zpos (digits2_pos m) <= 53 /\ Zpos m < 2 ^ 53.
Proof.
  unfold bounded, canonical_mantissa. rewrite fexp_fexp64.
  intros H. apply andb_prop in H. destruct H as [Hc He].
  apply Z.eqb_eq in Hc. apply Z.leb_le in He. change (emax - prec) with 971 in He.
  assert (Hd : Zpos (digits2_pos m) <= 53) by (unfold fexp64 in Hc; lia).
  repeat split; try assumption.
  - unfold fexp64 in Hc. lia.
  - pose proof (digits2_pos_bounds m) as [_ Hhi].
    assert (2 ^ Zpos (digits2_pos m) <= 2 ^ 53) by (apply Z.pow_le_mono_r; lia). lia.
Qed.

Lemma RQ_exact (m : positive) (e : Z) :
  bounded prec emax m e = true -> RQ (Zpos m) 1 e = S754_finite false m e.
Proof.
  intros Hb. destruct (bounded_facts m e Hb) as (Hc & He & _ & _ & Hm).
  unfold RQ, rounded, target. rewrite Z.div_1_r. cbn [Zdigits2]. rewrite Hc, Z.sub_diag.
  assert (Hr : rneQ (Zpos m) (1 * 2 ^ 0) = Zpos m).
  { unfold rneQ. simpl (1 * 2 ^ 0). rewrite Z.div_1_r, Z.mod_1_r. reflexivity. }
  rewrite Hr. unfold carry.
  destruct (Z.eqb_spec (Zpos m) (2 ^ 53)); [lia |]. cbn [fst snd pack].
  destruct (Z.leb_spec e 971); [reflexivity | lia].
Qed.

Lemma fin_cases (x : number) :
  fin x ->
  (exists s, x = S754_zero s)
  \/ (exists m e, x = S754_finite false m e /\ bounded prec emax m e = true).
Proof.
  unfold fin, amount. intros H.
  apply andb_prop in H. destruct H as [H Hlt].
  apply andb_prop in H. destruct H as [Hv Hle].
  destruct x as [s|s| |s m e]; try discriminate.
  - left. eauto.
  - destruct s; discriminate.
  - destruct s; [discriminate |]. right. eauto.
Qed.

Lemma nonneg_cases (x : number) :
  nonneg x -> fin x \/ x = Infinity.
Proof.
  intros [Hv Hle]. unfold fin, amount. rewrite Hv, Hle.
  destruct x as [s|s| |s m e]; try discriminate; auto;
    destruct s; try discriminate; auto.
Qed.

Lemma fin_nonneg (x : number) : fin x -> nonneg x.
Proof.
  unfold fin, amount, nonneg. intros H.
  apply andb_prop in H. destruct H as [H _]. apply andb_prop in H. exact H.
Qed.

Lemma ival_nonneg (x : number) : 0 <= ival x.
Proof.
  destruct x as [s|s| |s m e]; simpl; try lia. destruct s; [lia |].
  apply Z.mul_nonneg_nonneg; [lia | apply Z.pow_nonneg; lia].
Qed.

Lemma sim_refl (x : number) : is_number x -> sim x x.
Proof. unfold sim. auto. Qed.

Lemma sim_sym (x y : number) : sim x y -> sim y x.
Proof. unfold sim. intuition congruence. Qed.

Lemma sim_trans (x y z : number) : sim x y -> sim y z -> sim x z.
Proof. unfold sim. intuition congruence. Qed.

Lemma le_sim (x x' y y' : number) :
  sim x x' -> sim y y' -> le x y = true -> le x' y' = true.
Proof.
  intros (Hx & Hx' & Kx) (Hy & Hy' & Ky). rewrite !Order.le_true.
  rewrite Kx, Ky. tauto.
Qed.

Lemma RQ_number (a b e : Z) : is_number (RQ a b e).
Proof.
  unfold RQ, pack. destruct (fst (rounded a b e)); try discriminate.
  destruct (_ <=? _); discriminate.
Qed.

Lemma RQ_zero (b e : Z) :
  0 < b -> e <= target 0 b e -> RQ 0 b e = S754_zero false.
Proof.
  intros Hb He. unfold RQ, rounded.
  assert (HB : 0 < b * 2 ^ (target 0 b e - e))
    by (apply Z.mul_pos_pos; [lia | apply Z.pow_pos_nonneg; lia]).
  assert (Hr : rneQ 0 (b * 2 ^ (target 0 b e - e)) = 0).
  { unfold rneQ. rewrite Z.div_0_l, Z.mod_0_l by lia.
    destruct (Z.ltb_spec (2 * 0) (b * 2 ^ (target 0 b e - e))); [reflexivity | lia]. }
  rewrite Hr. reflexivity.
Qed.

(** A finite non-negative number is the rounding of its own value. *)
Lemma fin_RQ (x : number) : fin x -> sim x (RQ (ival x) 1 (-1074)).
Proof.
  intros Hx. destruct (fin_cases x Hx) as [[s ->] | (m & e & -> & Hb)].
  - simpl ival. rewrite RQ_zero by (try apply low_target; lia).
    repeat split; discriminate.
  - destruct (bounded_facts m e Hb) as (Hc & He & He' & _).
    simpl ival.
    assert (H : RQ (Zpos m * 2 ^ (e + 1074)) 1 (e - (e + 1074)) = RQ (Zpos m) 1 e).
    { apply RQ_scale; try lia.
      unfold target. rewrite Z.div_1_r. simpl Zdigits2. lia. }
    replace (e - (e + 1074)) with (-1074) in H by lia.
    rewrite H, (RQ_exact m e Hb). apply sim_refl. discriminate.
Qed.

Lemma le_ival_intro (x y : number) :
  fin x -> fin y -> ival x <= ival y -> le x y = true.
Proof.
  intros Hx Hy Hle.
  apply (le_sim _ _ _ _ (sim_sym _ _ (fin_RQ x Hx)) (sim_sym _ _ (fin_RQ y Hy))).
  apply (RQ_mono _ _ _ _ _ _ (-1074)); try lia; try apply ival_nonneg;
    try (apply low_target; lia).
Qed.

Lemma key_ival (x y : number) : fin x -> fin y -> key x = key y -> ival x = ival y.
Proof.
  intros Hx Hy Hk.
  destruct (fin_cases x Hx) as [[s ->] | (m & e & -> & Hb)];
    destruct (fin_cases y Hy) as [[s' ->] | (m' & e' & -> & Hb')];
    simpl in *; try congruence.
Qed.

Lemma le_ival (x y : number) :
  fin x -> fin y -> le x y = true -> ival x <= ival y.
Proof.
  intros Hx Hy Hle.
  destruct (Z_le_gt_dec (ival x) (ival y)) as [|Hgt]; [assumption |].
  assert (Hge : le y x = true) by (apply le_ival_intro; auto; lia).
  assert (Hk : key x = key y).
  { apply Order.le_true in Hle. apply Order.le_true in Hge.
    destruct Hle as (_ & _ & H1), Hge as (_ & _ & H2).
    destruct (key x) as [[c e] m], (key y) as [[c' e'] m'].
    unfold key_lt in *. f_equal; [f_equal |]; lia. }
  rewrite (key_ival x y Hx Hy Hk). lia.
Qed.


(** ** The arithmetic operations as rounded exact results *)

Lemma iter_xO (m d : positive) : Zpos (Pos.iter xO m d) = Zpos m * 2 ^ Zpos d.
Proof.
  induction d as [|d IH] using Pos.peano_ind.
  - simpl. lia.
  - rewrite Pos.iter_succ, Pos2Z.inj_succ, Z.pow_succ_r by lia.
    rewrite Pos2Z.inj_xO, IH. lia.
Qed.

Lemma shl_align_spec (m : positive) (e e' : Z) :
  let '(m', e'') := shl_align m e e' in
  e'' = Z.min e e' /\ Zpos m' = Zpos m * 2 ^ (e - e'').
Proof.
  unfold shl_align. destruct (e' - e) as [|d|d] eqn:Hd.
  - split; [lia |]. replace (e - e) with 0 by lia. simpl. lia.
  - split; [lia |]. replace (e - e) with 0 by lia. simpl. lia.
  - split; [lia |]. rewrite iter_xO. f_equal. f_equal. lia.
Qed.

Lemma shl_align_fst (m : positive) (e e' : Z) :
  e' <= e -> Zpos (fst (shl_align m e e')) = Zpos m * 2 ^ (e - e').
Proof.
  intros He. pose proof (shl_align_spec m e e') as H.
  destruct (shl_align m e e') as [m' e'']. destruct H as [He'' Hm'].
  cbn [fst]. rewrite Hm'. f_equal. f_equal. lia.
Qed.

Lemma target_exact_scale (m j e : Z) :
  0 < m -> 0 <= j -> target (m * 2 ^ j) 1 (e - j) = target m 1 e.
Proof.
  intros Hm Hj. unfold target. rewrite !Z.div_1_r.
  destruct (Zdigits2_bounds m Hm) as (Hd & Hlo & Hhi).
  assert (HJ : 0 < 2 ^ j) by (apply Z.pow_pos_nonneg; lia).
  rewrite (Zdigits2_unique (m * 2 ^ j) (Zdigits2 m + j)).
  - f_equal. lia.
  - lia.
  - replace (Zdigits2 m + j - 1) with (Zdigits2 m - 1 + j) by lia.
    rewrite !Z.pow_add_r by lia. split; nia.
Qed.

(** [binary_round] rounds the value it is given, whatever its exponent. *)
Lemma binary_round_RQ (m : positive) (e c : Z) :
  c <= e -> c <= -1074 ->
  binary_round prec emax false m e = RQ (Zpos m * 2 ^ (e - c)) 1 c.
Proof.
  intros Hce Hc. unfold binary_round. rewrite fexp_fexp64.
  change (Zpos (digits2_pos m)) with (Zdigits2 (Zpos m)).
  set (T := fexp64 (Zdigits2 (Zpos m) + e)).
  assert (HT : T = target (Zpos m) 1 e) by (unfold T, target; now rewrite Z.div_1_r).
  pose proof (shl_align_spec m e T) as H.
  destruct (shl_align m e T) as [mz ez]. destruct H as [Hez Hmz].
  assert (Htz : target (Zpos mz) 1 ez = T).
  { rewrite Hmz, HT. replace ez with (e - (e - ez)) at 2 by lia.
    apply target_exact_scale; lia. }
  assert (HTge : -1074 <= T) by (rewrite HT; apply target_ge).
  rewrite (round_aux_RQ (Zpos mz) ez (Zpos mz) 1);
    [| lia | lia | apply located_exact | lia].
  rewrite <- (RQ_scale (Zpos mz) 1 ez (ez - c)) by lia.
  replace (ez - (ez - c)) with c by lia.
  f_equal. rewrite Hmz, <- Z.mul_assoc, <- Z.pow_add_r by lia.
  f_equal. f_equal. lia.
Qed.

Lemma binary_normalize_RQ (n e c : Z) :
  0 <= n -> c <= e -> c <= -1074 ->
  binary_normalize prec emax n e false = RQ (n * 2 ^ (e - c)) 1 c.
Proof.
  intros Hn Hce Hc. destruct n as [|p|p]; [| | lia].
  - simpl. rewrite RQ_zero; [reflexivity | lia | apply low_target; lia].
  - simpl binary_normalize. now apply binary_round_RQ.
Qed.

Lemma RQ_nonneg (a b e : Z) :
  0 <= a -> 0 < b -> e <= -1074 -> nonneg (RQ a b e).
Proof. intros Ha Hb He. apply RQ_valid; try assumption. now apply low_target. Qed.

Lemma ofZ_RQ (n : Z) : 0 <= n -> ofZ n = RQ (n * 2 ^ 1074) 1 (-1074).
Proof.
  intros Hn. unfold ofZ. rewrite (binary_normalize_RQ n 0 (-1074)) by lia.
  reflexivity.
Qed.

Lemma add_fin (x y : number) :
  fin x -> fin y ->
  sim (add x y) (RQ (ival x + ival y) 1 (-1074)) /\ nonneg (add x y).
Proof.
  intros Hx Hy.
  destruct (fin_cases x Hx) as [[sx ->] | (mx & ex & -> & Hbx)];
    destruct (fin_cases y Hy) as [[sy ->] | (my & ey & -> & Hby)].
  - simpl ival. rewrite RQ_zero by (try apply low_target; lia).
    destruct sx, sy; simpl; (split; [repeat split; discriminate | split; reflexivity]).
  - simpl Z.add. split; [| apply fin_nonneg; exact Hy].
    apply (fin_RQ _ Hy).
  - rewrite Z.add_0_r. split; [| apply fin_nonneg; exact Hx].
    apply (fin_RQ _ Hx).
  - destruct (bounded_facts mx ex Hbx) as (_ & _ & Hex & _).
    destruct (bounded_facts my ey Hby) as (_ & _ & Hey & _).
    unfold add, SFadd. cbn [cond_Zopp].
    rewrite !shl_align_fst by lia.
    assert (0 < 2 ^ (ex - Z.min ex ey)) by (apply Z.pow_pos_nonneg; lia).
    assert (0 < 2 ^ (ey - Z.min ex ey)) by (apply Z.pow_pos_nonneg; lia).
    rewrite (binary_normalize_RQ _ (Z.min ex ey) (-1074)) by nia.
    assert (Heq : (Zpos mx * 2 ^ (ex - Z.min ex ey) + Zpos my * 2 ^ (ey - Z.min ex ey))
                    * 2 ^ (Z.min ex ey - -1074)
                    = ival (S754_finite false mx ex) + ival (S754_finite false my ey)).
      { simpl ival. rewrite Z.mul_add_distr_r, <- !Z.mul_assoc, <- !Z.pow_add_r by lia.
        f_equal; f_equal; f_equal; lia. }
    rewrite Heq. split; [apply sim_refl, RQ_number |].
    apply RQ_nonneg; lia.
Qed.

Lemma sub_fin (x y : number) :
  fin x -> fin y -> ival y <= ival x ->
  sim (sub x y) (RQ (ival x - ival y) 1 (-1074)) /\ nonneg (sub x y).
Proof.
  intros Hx Hy Hle.
  destruct (fin_cases x Hx) as [[sx ->] | (mx & ex & -> & Hbx)];
    destruct (fin_cases y Hy) as [[sy ->] | (my & ey & -> & Hby)].
  - simpl ival. rewrite RQ_zero by (try apply low_target; lia).
    destruct sx, sy; simpl; (split; [repeat split; discriminate | split; reflexivity]).
  - exfalso. simpl ival in Hle.
    assert (0 < Zpos my * 2 ^ (ey + 1074)); [| lia].
    destruct (bounded_facts my ey Hby) as (_ & _ & Hey & _).
    apply Z.mul_pos_pos; [lia | apply Z.pow_pos_nonneg; lia].
  - rewrite Z.sub_0_r. split; [| apply fin_nonneg; exact Hx].
    apply (fin_RQ _ Hx).
  - destruct (bounded_facts mx ex Hbx) as (_ & _ & Hex & _).
    destruct (bounded_facts my ey Hby) as (_ & _ & Hey & _).
    unfold sub, SFsub. cbn [cond_Zopp].
    rewrite !shl_align_fst by lia.
    assert (Heq : (Zpos mx * 2 ^ (ex - Z.min ex ey) - Zpos my * 2 ^ (ey - Z.min ex ey))
                  * 2 ^ (Z.min ex ey - -1074)
                  = ival (S754_finite false mx ex) - ival (S754_finite false my ey)).
    { simpl ival. rewrite Z.mul_sub_distr_r, <- !Z.mul_assoc, <- !Z.pow_add_r by lia.
      f_equal; f_equal; f_equal; lia. }
    assert (HP : 0 < 2 ^ (Z.min ex ey - -1074)) by (apply Z.pow_pos_nonneg; lia).
    rewrite (binary_normalize_RQ _ (Z.min ex ey) (-1074)) by nia.
    rewrite Heq. split; [apply sim_refl, RQ_number |].
    apply RQ_nonneg; lia.
Qed.


Lemma digits_mul (mx my : positive) :
  Zpos (digits2_pos mx) + Zpos (digits2_pos my) - 1 <= Zdigits2 (Zpos (mx * my)).
Proof.
  pose proof (digits2_pos_bounds mx) as [Hx _].
  pose proof (digits2_pos_bounds my) as [Hy _].
  destruct (Zdigits2_bounds (Zpos (mx * my)) ltac:(lia)) as (Hd & _ & Hhi).
  assert (Hp : 2 ^ (Zpos (digits2_pos mx) - 1 + (Zpos (digits2_pos my) - 1))
               <= Zpos (mx * my)).
  { rewrite Z.pow_add_r by lia. rewrite Pos2Z.inj_mul. nia. }
  assert (Zpos (digits2_pos mx) - 1 + (Zpos (digits2_pos my) - 1)
          < Zdigits2 (Zpos (mx * my))) by (apply pow2_lt_inv; lia).
  lia.
Qed.

Lemma zero_nonneg (s : bool) : nonneg (S754_zero s).
Proof. split; reflexivity. Qed.

Lemma zero_sim (s : bool) (b e : Z) :
  0 < b -> e <= -1074 -> sim (S754_zero s) (RQ 0 b e).
Proof.
  intros Hb He. rewrite RQ_zero by (try apply low_target; lia).
  repeat split; discriminate.
Qed.

Lemma mul_fin (x y : number) :
  fin x -> fin y ->
  sim (mul x y) (RQ (ival x * ival y) 1 (-2148)) /\ nonneg (mul x y).
Proof.
  intros Hx Hy.
  destruct (fin_cases x Hx) as [[sx ->] | (mx & ex & -> & Hbx)];
    destruct (fin_cases y Hy) as [[sy ->] | (my & ey & -> & Hby)];
    try (simpl ival; rewrite ?Z.mul_0_l, ?Z.mul_0_r;
         split; [apply zero_sim; lia | apply zero_nonneg]).
  destruct (bounded_facts mx ex Hbx) as (Hcx & _ & Hex & Hdx & _).
  destruct (bounded_facts my ey Hby) as (Hcy & _ & Hey & Hdy & _).
  unfold mul, SFmul. cbn [xorb].
  pose proof (digits_mul mx my) as Hd.
  rewrite (round_aux_RQ _ _ (Zpos (mx * my)) 1);
    [| lia | lia | apply located_exact
     | unfold target; rewrite Z.div_1_r; unfold fexp64 in *; lia].
  assert (Hs : RQ (Zpos (mx * my) * 2 ^ (ex + ey + 2148)) 1 (ex + ey - (ex + ey + 2148))
               = RQ (Zpos (mx * my)) 1 (ex + ey)).
  { apply RQ_scale; try lia.
    unfold target. rewrite Z.div_1_r. unfold fexp64 in *. lia. }
  replace (ex + ey - (ex + ey + 2148)) with (-2148) in Hs by lia.
  assert (Heq : Zpos (mx * my) * 2 ^ (ex + ey + 2148)
                = ival (S754_finite false mx ex) * ival (S754_finite false my ey)).
  { simpl ival. replace (ex + ey + 2148) with (ex + 1074 + (ey + 1074)) by lia.
    rewrite Z.pow_add_r, Pos2Z.inj_mul by lia. lia. }
  rewrite <- Heq, Hs. split; [apply sim_refl, RQ_number |].
  apply RQ_valid; try lia.
  unfold target. rewrite Z.div_1_r. unfold fexp64 in *. lia.
Qed.

Lemma located_div (a b : Z) :
  0 < b ->
  located (shr_record_of_loc (a / b) (new_location b (a mod b))) a b.
Proof.
  intros Hb. pose proof (Z.mod_pos_bound a b Hb) as Hr.
  unfold located. generalize dependent (a mod b). generalize (a / b).
  intros q r Hr.
  unfold new_location, new_location_even, new_location_odd.
  destruct (Z.even b) eqn:Heven.
  - destruct (Z.eqb_spec r 0) as [H0 | Hne].
    + cbn. bool_cases; try (split; [| split]; reflexivity); lia.
    + destruct (Z.compare_spec (2 * r) b); cbn;
        bool_cases; try (split; [| split]; reflexivity); lia.
  - assert (Hodd : 2 * r <> b).
    { intros <-. rewrite Z.even_mul in Heven. discriminate. }
    destruct (Z.eqb_spec r 0) as [H0 | Hne].
    + cbn. bool_cases; try (split; [| split]; reflexivity); lia.
    + destruct (Z.compare_spec (2 * r + 1) b); cbn;
        bool_cases; try (split; [| split]; reflexivity); lia.
Qed.


Lemma div_core_spec (mx my : positive) (ex ey : Z) :
  let e' := Z.min (fexp64 (Zpos (digits2_pos mx) + ex - (Zpos (digits2_pos my) + ey)))
                  (ex - ey) in
  let s := ex - ey - e' in
  SFdiv_core_binary prec emax (Zpos mx) ex (Zpos my) ey
  = (Zpos mx * 2 ^ s / Zpos my, e',
     new_location (Zpos my) ((Zpos mx * 2 ^ s) mod Zpos my)).
Proof.
  intros e' s. unfold SFdiv_core_binary. cbn [Zdigits2]. rewrite fexp_fexp64.
  fold e'. fold s.
  assert (Hs : 0 <= s) by (unfold s, e'; lia).
  assert (Hm : match s with
               | 0 => Zpos mx
               | Zpos _ => Z.shiftl (Zpos mx) s
               | Zneg _ => 0
               end = Zpos mx * 2 ^ s).
  { destruct s as [|p|p]; [simpl; lia | apply Z.shiftl_mul_pow2; lia | lia]. }
  rewrite Hm. unfold Z.div, Z.modulo.
  destruct (Z.div_eucl (Zpos mx * 2 ^ s) (Zpos my)) as [q r]. reflexivity.
Qed.

Lemma div_fin (x d : number) :
  fin x -> fin d -> 0 < ival d ->
  sim (div x d) (RQ (ival x * 2 ^ 2200) (ival d) (-2200)) /\ nonneg (div x d).
Proof.
  intros Hx Hd Hpos.
  destruct (fin_cases d Hd) as [[sd ->] | (my & ey & -> & Hby)]; [simpl in Hpos; lia |].
  destruct (fin_cases x Hx) as [[sx ->] | (mx & ex & -> & Hbx)].
  - simpl ival. rewrite Z.mul_0_l. split; [| apply zero_nonneg].
    apply zero_sim; [| lia].
    apply Z.mul_pos_pos; [lia | apply Z.pow_pos_nonneg].
    + lia.
    + destruct (bounded_facts my ey Hby) as (_ & _ & Hey & _). lia.
  - destruct (bounded_facts mx ex Hbx) as (Hcx & Hex' & Hex & Hdx & _).
    destruct (bounded_facts my ey Hby) as (Hcy & Hey' & Hey & Hdy & _).
    unfold div, SFdiv. rewrite div_core_spec. cbn [xorb].
    set (e' := Z.min (fexp64 (Zpos (digits2_pos mx) + ex - (Zpos (digits2_pos my) + ey)))
                     (ex - ey)).
    set (s := ex - ey - e').
    assert (Hs : 0 <= s) by (unfold s, e'; lia).
    assert (HS : 0 < 2 ^ s) by (apply Z.pow_pos_nonneg; lia).
    assert (He' : -2200 <= e') by (unfold e', fexp64; lia).
    set (a := Zpos mx * 2 ^ s).
    assert (Ha : 0 < a) by (unfold a; nia).
    (* the quotient has enough digits for the rounding to shift right *)
    assert (Hpre : e' <= target a (Zpos my) e').
    { destruct (Z_le_gt_dec e' (-1074)) as [Hlow | Hhigh]; [now apply low_target |].
      assert (Hs' : 53 + Zpos (digits2_pos my) - Zpos (digits2_pos mx) <= s)
        by (unfold s, e', fexp64 in *; lia).
      pose proof (digits2_pos_bounds mx) as [Hlx _].
      pose proof (digits2_pos_bounds my) as [_ Hhy].
      assert (Hq : 2 ^ 52 <= a / Zpos my).
      { apply Z.div_le_lower_bound; [lia |].
        assert (Hpow : 2 ^ (Zpos (digits2_pos my) + 52)
                       <= 2 ^ (Zpos (digits2_pos mx) - 1 + s))
          by (apply Z.pow_le_mono_r; lia).
        rewrite !Z.pow_add_r in Hpow by lia. unfold a. nia. }
      assert (Hdq : 53 <= Zdigits2 (a / Zpos my)).
      { destruct (Zdigits2_bounds (a / Zpos my)) as (_ & _ & Hhi);
          [destruct pow2_53; lia |].
        assert (52 < Zdigits2 (a / Zpos my)); [| lia].
        apply pow2_lt_inv; [apply Zdigits2_nonneg | lia]. }
      unfold target, fexp64. lia. }
    rewrite (round_aux_RQ _ e' a (Zpos my));
      [| lia | lia | apply located_div; lia | exact Hpre].
    assert (Hsc : RQ (a * 2 ^ (e' + 2200)) (Zpos my) (e' - (e' + 2200))
                  = RQ a (Zpos my) e') by (apply RQ_scale; lia).
    replace (e' - (e' + 2200)) with (-2200) in Hsc by lia.
    assert (Hc : RQ (a * 2 ^ (e' + 2200) * 2 ^ (ey + 1074))
                    (Zpos my * 2 ^ (ey + 1074)) (-2200)
                 = RQ (a * 2 ^ (e' + 2200)) (Zpos my) (-2200)).
    { apply RQ_cancel; [lia | apply Z.pow_pos_nonneg; lia | apply low_target; lia]. }
    assert (Heq : a * 2 ^ (e' + 2200) * 2 ^ (ey + 1074)
                  = ival (S754_finite false mx ex) * 2 ^ 2200).
    { unfold a. simpl ival.
      rewrite <- !Z.mul_assoc, <- !Z.pow_add_r by lia.
      f_equal. f_equal. unfold s. lia. }
    rewrite Heq in Hc. simpl (ival (S754_finite false my ey)).
    rewrite Hc, Hsc. split; [apply sim_refl, RQ_number |].
    apply RQ_valid; [lia | lia | exact Hpre].
Qed.


Lemma iround_integer (M : Z) : (2 * (M * 2 ^ 1074) + 2 ^ 1074) / 2 ^ 1075 = M.
Proof.
  replace (2 * (M * 2 ^ 1074) + 2 ^ 1074) with ((2 * M + 1) * 2 ^ 1074) by lia.
  change (2 ^ 1075) with (2 * 2 ^ 1074).
  rewrite Z.div_mul_cancel_r by (try apply Z.pow_nonzero; lia).
  symmetry. apply (Z.div_unique _ _ _ 1); lia.
Qed.

Lemma iround_fraction (m k : Z) :
  0 <= m -> 1 <= k <= 1074 ->
  (2 * (m * 2 ^ (- k + 1074)) + 2 ^ 1074) / 2 ^ 1075
  = if 2 ^ (k - 1) <=? m mod 2 ^ k then m / 2 ^ k + 1 else m / 2 ^ k.
Proof.
  intros Hm Hk.
  assert (HP : 0 < 2 ^ (k - 1)) by (apply Z.pow_pos_nonneg; lia).
  assert (E1 : 2 ^ k = 2 * 2 ^ (k - 1)).
  { replace k with (Z.succ (k - 1)) at 1 by lia. apply Z.pow_succ_r. lia. }
  assert (E2 : 2 ^ 1074 = 2 ^ (- k + 1074) * 2 ^ k)
    by (rewrite <- Z.pow_add_r by lia; f_equal; lia).
  assert (E3 : 2 ^ 1075 = 2 ^ (- k + 1074) * (2 * 2 ^ k)).
  { change (2 ^ 1075) with (2 * 2 ^ 1074). rewrite E2. lia. }
  assert (HQ : 0 < 2 ^ (- k + 1074)) by (apply Z.pow_pos_nonneg; lia).
  rewrite E3.
  replace (2 * (m * 2 ^ (- k + 1074)) + 2 ^ 1074)
    with (2 ^ (- k + 1074) * (2 * m + 2 ^ k)) by (rewrite E2; ring).
  rewrite Z.div_mul_cancel_l by lia.
  pose proof (Z.div_mod m (2 ^ k) ltac:(lia)) as Hdiv.
  pose proof (Z.mod_pos_bound m (2 ^ k) ltac:(lia)) as Hr.
  set (q := m / 2 ^ k) in *. set (r := m mod 2 ^ k) in *.
  destruct (Z.leb_spec (2 ^ (k - 1)) r).
  - symmetry. apply (Z.div_unique _ _ _ (2 * (r - 2 ^ (k - 1)))); nia.
  - symmetry. apply (Z.div_unique _ _ _ (2 * (r + 2 ^ (k - 1)))); nia.
Qed.

Lemma iround_nonneg (x : number) : 0 <= iround x.
Proof.
  unfold iround. apply Z.div_pos; [| reflexivity].
  pose proof (ival_nonneg x). assert (0 < 2 ^ 1074) by reflexivity. lia.
Qed.

Lemma round_fin (x : number) :
  fin x ->
  sim (Math_round x) (RQ (iround x * 2 ^ 1074) 1 (-1074)) /\ nonneg (Math_round x).
Proof.
  intros Hx. destruct (fin_cases x Hx) as [[sx ->] | (m & e & -> & Hb)].
  - split; [| apply zero_nonneg]. apply zero_sim; lia.
  - destruct (bounded_facts m e Hb) as (_ & _ & He & _).
    unfold Math_round. destruct (Z.leb_spec 0 e) as [Hpos | Hneg].
    + split; [| apply fin_nonneg; exact Hx].
      assert (Hi : iround (S754_finite false m e) * 2 ^ 1074
                   = ival (S754_finite false m e)).
      { unfold iround, ival.
        replace (Zpos m * 2 ^ (e + 1074)) with (Zpos m * 2 ^ e * 2 ^ 1074)
          by (rewrite Z.pow_add_r by lia; ring).
        rewrite iround_integer. reflexivity. }
      rewrite Hi. apply (fin_RQ _ Hx).
    + cbn [cond_Zopp].
      rewrite Z.shiftr_div_pow2, Z.land_ones, Z.shiftl_mul_pow2, Z.mul_1_l by lia.
      assert (Hi : iround (S754_finite false m e)
                   = if 2 ^ (- e - 1) <=? Zpos m mod 2 ^ (- e)
                     then Zpos m / 2 ^ (- e) + 1 else Zpos m / 2 ^ (- e)).
      { unfold iround, ival.
        replace (e + 1074) with (- (- e) + 1074) by lia.
        apply iround_fraction; lia. }
      rewrite <- Hi. pose proof (iround_nonneg (S754_finite false m e)) as Hn.
      rewrite (binary_normalize_RQ _ 0 (-1074)) by lia.
      split; [apply sim_refl, RQ_number |].
      apply RQ_nonneg; lia.
Qed.


(** ** Monotonicity of the operations on non-negative numbers *)

Lemma Infinity_nonneg : nonneg Infinity.
Proof. split; reflexivity. Qed.

Lemma le_Infinity (x : number) : nonneg x -> le x Infinity = true.
Proof.
  intros [Hv Hle]. destruct x as [s|s| |s m e]; try discriminate; try reflexivity;
    destruct s; try discriminate; reflexivity.
Qed.

Lemma fin_not_Infinity (x : number) : fin x -> le Infinity x = false.
Proof.
  intros Hx. destruct (fin_cases x Hx) as [[s ->] | (m & e & -> & _)]; reflexivity.
Qed.

Lemma nonneg_le_cases (x y : number) :
  nonneg x -> nonneg y -> le x y = true ->
  (fin x /\ fin y /\ ival x <= ival y) \/ y = Infinity.
Proof.
  intros Hx Hy Hle.
  destruct (nonneg_cases y Hy) as [Fy | ->]; [| now right].
  destruct (nonneg_cases x Hx) as [Fx | ->].
  - left. repeat split; auto. now apply le_ival.
  - rewrite (fin_not_Infinity y Fy) in Hle. discriminate.
Qed.

Lemma fin_below (x y : number) : nonneg x -> fin y -> le x y = true -> fin x.
Proof.
  intros Hx Fy Hle. destruct (nonneg_le_cases x y Hx (fin_nonneg y Fy) Hle)
    as [(Fx & _) | ->]; [exact Fx |].
  discriminate Fy.
Qed.

Lemma add_Infinity_l (y : number) : nonneg y -> add Infinity y = Infinity.
Proof.
  intros [Hv Hle]. destruct y as [s|s| |s m e]; try discriminate; try reflexivity.
  destruct s; [discriminate | reflexivity].
Qed.

Lemma add_Infinity_r (x : number) : nonneg x -> add x Infinity = Infinity.
Proof.
  intros [Hv Hle]. destruct x as [s|s| |s m e]; try discriminate; try reflexivity.
  destruct s; [discriminate | reflexivity].
Qed.

Lemma add_nonneg (x y : number) : nonneg x -> nonneg y -> nonneg (add x y).
Proof.
  intros Hx Hy.
  destruct (nonneg_cases x Hx) as [Fx | ->];
    [| rewrite add_Infinity_l by exact Hy; apply Infinity_nonneg].
  destruct (nonneg_cases y Hy) as [Fy | ->];
    [| rewrite add_Infinity_r by exact Hx; apply Infinity_nonneg].
  apply add_fin; assumption.
Qed.

Lemma add_mono (x x' y y' : number) :
  nonneg x -> nonneg x' -> nonneg y -> nonneg y' ->
  le x x' = true -> le y y' = true ->
  le (add x y) (add x' y') = true.
Proof.
  intros Hx Hx' Hy Hy' Lx Ly.
  destruct (nonneg_le_cases x x' Hx Hx' Lx) as [(Fx & Fx' & Ix) | ->];
    [| rewrite add_Infinity_l by exact Hy'; apply le_Infinity, add_nonneg; assumption].
  destruct (nonneg_le_cases y y' Hy Hy' Ly) as [(Fy & Fy' & Iy) | ->];
    [| rewrite add_Infinity_r by exact Hx'; apply le_Infinity, add_nonneg; assumption].
  apply (le_sim _ _ _ _ (sim_sym _ _ (proj1 (add_fin x y Fx Fy)))
                        (sim_sym _ _ (proj1 (add_fin x' y' Fx' Fy')))).
  pose proof (ival_nonneg x). pose proof (ival_nonneg y).
  apply (RQ_mono _ _ _ _ _ _ (-1074)); try lia; try (apply low_target; lia).
Qed.

Lemma add_increases (x t : number) :
  nonneg x -> nonneg t -> le x (add x t) = true.
Proof.
  intros Hx Ht.
  destruct (nonneg_cases x Hx) as [Fx | ->];
    [| rewrite add_Infinity_l by exact Ht; reflexivity].
  destruct (nonneg_cases t Ht) as [Ft | ->];
    [| rewrite add_Infinity_r by exact Hx; apply le_Infinity; exact Hx].
  apply (le_sim _ _ _ _ (sim_sym _ _ (fin_RQ x Fx))
                        (sim_sym _ _ (proj1 (add_fin x t Fx Ft)))).
  pose proof (ival_nonneg x). pose proof (ival_nonneg t).
  apply (RQ_mono _ _ _ _ _ _ (-1074)); try lia; try (apply low_target; lia).
Qed.

Lemma sub_mono (u v c : number) :
  fin u -> fin v -> fin c -> le c u = true -> le u v = true ->
  le (sub u c) (sub v c) = true /\ fin (sub u c) /\ fin (sub v c).
Proof.
  intros Fu Fv Fc Lcu Luv.
  pose proof (le_ival c u Fc Fu Lcu) as Icu.
  pose proof (le_ival u v Fu Fv Luv) as Iuv.
  pose proof (ival_nonneg c) as Ic.
  destruct (sub_fin u c Fu Fc Icu) as [Su Nu].
  destruct (sub_fin v c Fv Fc ltac:(lia)) as [Sv Nv].
  assert (Hbelow : forall w, fin w -> ival c <= ival w -> le (sub w c) w = true).
  { intros w Fw Iw. destruct (sub_fin w c Fw Fc Iw) as [Sw _].
    apply (le_sim _ _ _ _ (sim_sym _ _ Sw) (sim_sym _ _ (fin_RQ w Fw))).
    apply (RQ_mono _ _ _ _ _ _ (-1074)); try lia; try (apply low_target; lia). }
  split; [| split].
  - apply (le_sim _ _ _ _ (sim_sym _ _ Su) (sim_sym _ _ Sv)).
    apply (RQ_mono _ _ _ _ _ _ (-1074)); try lia; try (apply low_target; lia).
  - apply (fin_below _ u Nu Fu). apply Hbelow; assumption.
  - apply (fin_below _ v Nv Fv). apply Hbelow; [assumption | lia].
Qed.

Lemma mul_Infinity_l (r : number) : fin r -> 0 < ival r -> mul Infinity r = Infinity.
Proof.
  intros Fr Hr. destruct (fin_cases r Fr) as [[s ->] | (m & e & -> & _)];
    [simpl in Hr; lia | reflexivity].
Qed.

Lemma mul_mono (x y r : number) :
  nonneg x -> nonneg y -> fin r -> le x y = true ->
  fin y \/ 0 < ival r ->
  le (mul x r) (mul y r) = true /\ nonneg (mul x r) /\ nonneg (mul y r).
Proof.
  intros Hx Hy Fr Lxy Hside.
  assert (Hfin : forall u v, fin u -> fin v -> ival u <= ival v ->
                 le (mul u r) (mul v r) = true /\ nonneg (mul u r) /\ nonneg (mul v r)).
  { intros u v Fu Fv Iuv.
    destruct (mul_fin u r Fu Fr) as [Su Nu]. destruct (mul_fin v r Fv Fr) as [Sv Nv].
    repeat split; try apply Nu; try apply Nv.
    apply (le_sim _ _ _ _ (sim_sym _ _ Su) (sim_sym _ _ Sv)).
    pose proof (ival_nonneg u). pose proof (ival_nonneg r).
    apply (RQ_mono _ _ _ _ _ _ (-2148)); try lia; try nia;
      try (apply low_target; lia). }
  destruct (nonneg_le_cases x y Hx Hy Lxy) as [(Fx & Fy & Ixy) | ->]; [now apply Hfin |].
  destruct Hside as [Fy | Hr]; [discriminate Fy |].
  rewrite (mul_Infinity_l r Fr Hr).
  assert (Nx : nonneg (mul x r)).
  { destruct (nonneg_cases x Hx) as [Fx | ->].
    - apply (mul_fin x r Fx Fr).
    - rewrite (mul_Infinity_l r Fr Hr). apply Infinity_nonneg. }
  repeat split; try apply Nx; try reflexivity.
  apply le_Infinity. exact Nx.
Qed.

Lemma div_Infinity_l (d : number) : fin d -> 0 < ival d -> div Infinity d = Infinity.
Proof.
  intros Fd Hd. destruct (fin_cases d Fd) as [[s ->] | (m & e & -> & _)];
    [simpl in Hd; lia | reflexivity].
Qed.

Lemma div_mono (x y d : number) :
  nonneg x -> nonneg y -> fin d -> 0 < ival d -> le x y = true ->
  le (div x d) (div y d) = true.
Proof.
  intros Hx Hy Fd Hd Lxy.
  assert (Nd : forall u, nonneg u -> nonneg (div u d)).
  { intros u Hu. destruct (nonneg_cases u Hu) as [Fu | ->].
    - apply (div_fin u d Fu Fd Hd).
    - rewrite (div_Infinity_l d Fd Hd). apply Infinity_nonneg. }
  destruct (nonneg_le_cases x y Hx Hy Lxy) as [(Fx & Fy & Ixy) | ->].
  - apply (le_sim _ _ _ _ (sim_sym _ _ (proj1 (div_fin x d Fx Fd Hd)))
                          (sim_sym _ _ (proj1 (div_fin y d Fy Fd Hd)))).
    pose proof (ival_nonneg x).
    assert (0 < 2 ^ 2200) by reflexivity.
    apply (RQ_mono _ _ _ _ _ _ (-2200)); try lia; try nia;
      try (apply low_target; lia).
  - rewrite (div_Infinity_l d Fd Hd). apply le_Infinity. now apply Nd.
Qed.

Lemma round_nonneg (x : number) : nonneg x -> nonneg (Math_round x).
Proof.
  intros Hx. destruct (nonneg_cases x Hx) as [Fx | ->].
  - apply (round_fin x Fx).
  - apply Infinity_nonneg.
Qed.

Lemma round_mono (x y : number) :
  nonneg x -> nonneg y -> le x y = true ->
  le (Math_round x) (Math_round y) = true.
Proof.
  intros Hx Hy Lxy.
  destruct (nonneg_le_cases x y Hx Hy Lxy) as [(Fx & Fy & Ixy) | ->].
  - apply (le_sim _ _ _ _ (sim_sym _ _ (proj1 (round_fin x Fx)))
                          (sim_sym _ _ (proj1 (round_fin y Fy)))).
    pose proof (iround_nonneg x). pose proof (iround_nonneg y).
    assert (0 < 2 ^ 1074) by reflexivity.
    assert (Hi : iround x <= iround y).
    { unfold iround. apply Z.div_le_mono; [reflexivity | lia]. }
    apply (RQ_mono _ _ _ _ _ _ (-1074)); try lia; try nia;
      try (apply low_target; lia).
  - apply le_Infinity. apply round_nonneg. exact Hx.
Qed.


Lemma nonneg_number (x : number) : nonneg x -> is_number x.
Proof. intros [_ H]. apply Order.le_number in H. tauto. Qed.

Lemma Math_min_cases (x y : number) :
  is_number x -> is_number y ->
  (Math_min x y = x /\ le x y = true) \/ (Math_min x y = y /\ le y x = true).
Proof.
  intros Hx Hy. unfold Math_min.
  replace (is_nan x) with false by (destruct x; try reflexivity; contradiction).
  replace (is_nan y) with false by (destruct y; try reflexivity; contradiction).
  cbn [orb].
  destruct (lt x y) eqn:Hxy.
  - left. split; [reflexivity |]. now apply Order.lt_le.
  - destruct (lt y x) eqn:Hyx.
    + right. split; [reflexivity |]. now apply Order.lt_false.
    + destruct (is_neg_zero x).
      * left. split; [reflexivity |]. now apply Order.lt_false.
      * right. split; [reflexivity |]. now apply Order.lt_false.
Qed.

Lemma Math_min_mono (a b M c : number) :
  fin a -> fin b -> nonneg M -> le a b = true ->
  le c a = true -> le c M = true ->
  le (Math_min a M) (Math_min b M) = true
  /\ fin (Math_min a M) /\ fin (Math_min b M)
  /\ le c (Math_min a M) = true.
Proof.
  intros Fa Fb HM Lab Lca LcM.
  pose proof (nonneg_number a (fin_nonneg a Fa)) as Na.
  pose proof (nonneg_number b (fin_nonneg b Fb)) as Nb.
  pose proof (nonneg_number M HM) as NM.
  destruct (Math_min_cases a M Na NM) as [[-> La] | [-> La]];
    destruct (Math_min_cases b M Nb NM) as [[-> Lb] | [-> Lb]];
    repeat split; auto;
    try (apply (fin_below M a HM Fa La));
    try (apply (fin_below M b HM Fb Lb)).
  - apply (Order.le_trans _ a); assumption.
  - now apply Order.le_refl.
Qed.


(** ** The loop of [calculateFederalTax] *)

Lemma chained_ok (brackets : list TaxBracket) (lo : number) :
  chained lo brackets = true -> le (ofZ 0) lo = true -> Forall bracket_ok brackets.
Proof.
  revert lo. induction brackets as [|b rest IH]; intros lo Hch Hlo; [constructor |].
  simpl in Hch. repeat (apply andb_prop in Hch; destruct Hch as [Hch ?]).
  apply Order.eqb_le in Hch. destruct Hch as [_ Hmin].
  assert (L0 : le (ofZ 0) (TaxBracket.min b) = true)
    by (apply (Order.le_trans _ lo); assumption).
  assert (L1 : le (ofZ 0) (TaxBracket.max b) = true)
    by (apply (Order.le_trans _ (TaxBracket.min b)); assumption).
  constructor; [| apply (IH (TaxBracket.max b)); assumption].
  repeat split; try assumption.
  unfold fin, amount.
  repeat (apply andb_true_intro; split); try assumption.
  apply (Order.lt_le_trans _ (ofZ 1)); [assumption | reflexivity].
Qed.

Lemma step_mono (a b ta tb : number) (br : TaxBracket) :
  fin a -> fin b -> le a b = true ->
  nonneg ta -> nonneg tb -> le ta tb = true ->
  bracket_ok br ->
  le (federal_step a ta br) (federal_step b tb br) = true
  /\ nonneg (federal_step a ta br) /\ nonneg (federal_step b tb br).
Proof.
  intros Fa Fb Lab Nta Ntb Lt (Nmin & Nmax & Lmm & Frate).
  assert (Hterm : forall x, fin x -> lt (TaxBracket.min br) x = true ->
            fin (TaxBracket.min br)
            /\ fin (Math_min x (TaxBracket.max br))
            /\ le (TaxBracket.min br) (Math_min x (TaxBracket.max br)) = true).
  { intros x Fx Hgt. pose proof (Order.lt_le _ _ Hgt) as Hle.
    destruct (Math_min_mono x x (TaxBracket.max br) (TaxBracket.min br)
                Fx Fx Nmax (Order.le_refl x (nonneg_number x (fin_nonneg x Fx))) Hle Lmm)
      as (_ & Fm & _ & Lm).
    repeat split; try assumption. apply (fin_below _ x Nmin Fx Hle). }
  assert (Hpart : forall x, fin x -> lt (TaxBracket.min br) x = true ->
            nonneg (mul (sub (Math_min x (TaxBracket.max br)) (TaxBracket.min br))
                        (TaxBracket.rate br))).
  { intros x Fx Hgt. destruct (Hterm x Fx Hgt) as (Fmin & Fm & Lm).
    destruct (sub_mono _ _ _ Fm Fm Fmin Lm (Order.le_refl _ (nonneg_number _ (fin_nonneg _ Fm))))
      as (_ & Fs & _).
    apply (mul_fin _ _ Fs Frate). }
  unfold federal_step, gt.
  destruct (lt (TaxBracket.min br) a) eqn:Ha.
  - assert (Hb : lt (TaxBracket.min br) b = true)
      by (apply (Order.lt_le_trans _ a); assumption).
    rewrite Hb.
    destruct (Hterm a Fa Ha) as (Fmin & Fma & Lma).
    destruct (Hterm b Fb Hb) as (_ & Fmb & _).
    destruct (Math_min_mono a b (TaxBracket.max br) (TaxBracket.min br)
                Fa Fb Nmax Lab (Order.lt_le _ _ Ha) Lmm) as (Lmin & _ & _ & _).
    destruct (sub_mono _ _ _ Fma Fmb Fmin Lma Lmin) as (Lsub & Fsa & Fsb).
    destruct (mul_mono _ _ (TaxBracket.rate br) (fin_nonneg _ Fsa) (fin_nonneg _ Fsb)
                Frate Lsub (or_introl Fsb)) as (Lmul & Nma & Nmb).
    split; [| split].
    + apply add_mono; assumption.
    + apply add_nonneg; assumption.
    + apply add_nonneg; assumption.
  - destruct (lt (TaxBracket.min br) b) eqn:Hb.
    + pose proof (Hpart b Fb Hb) as Np.
      split; [| split]; try assumption.
      * apply (Order.le_trans _ tb); [assumption |]. now apply add_increases.
      * apply add_nonneg; assumption.
    + split; [| split]; assumption.
Qed.

Lemma fold_mono (brackets : list TaxBracket) (a b ta tb : number) :
  Forall bracket_ok brackets ->
  fin a -> fin b -> le a b = true ->
  nonneg ta -> nonneg tb -> le ta tb = true ->
  le (fold_left (federal_step a) brackets ta) (fold_left (federal_step b) brackets tb) = true
  /\ nonneg (fold_left (federal_step a) brackets ta)
  /\ nonneg (fold_left (federal_step b) brackets tb).
Proof.
  intros Hok Fa Fb Lab. revert ta tb.
  induction Hok as [|br rest Hbr _ IH]; intros ta tb Nta Ntb Lt; [simpl; auto |].
  simpl. destruct (step_mono a b ta tb br Fa Fb Lab Nta Ntb Lt Hbr) as (L & Na & Nb).
  apply IH; assumption.
Qed.

Lemma hundred : fin (ofZ 100) /\ 0 < ival (ofZ 100).
Proof.
  split; [reflexivity |].
  change (ofZ 100) with (S754_finite false 7036874417766400 (-46)).
  unfold ival. apply Z.mul_pos_pos; [lia | apply Z.pow_pos_nonneg; lia].
Qed.

Lemma round2_mono (x y : number) :
  nonneg x -> nonneg y -> le x y = true -> le (round2 x) (round2 y) = true.
Proof.
  intros Hx Hy Lxy. destruct hundred as [F100 P100]. unfold round2.
  destruct (mul_mono x y (ofZ 100) Hx Hy F100 Lxy (or_intror P100)) as (Lm & Nx & Ny).
  apply div_mono; try assumption; try (apply round_nonneg; assumption).
  apply round_mono; assumption.
Qed.

End Rounding.

(** C8. For a well-formed bracket sequence and two taxable incomes
    [0 <= a <= b], both finite binary64 amounts, the federal tax computed on
    [a] is at most the federal tax computed on [b]: every rounding on the
    way (in the subtraction, the product, the running sum, the scaling by
    100, [Math.round] and the division by 100) preserves the order. *)
Theorem C8_federal_tax_monotone (brackets : list TaxBracket) (a b : number) :
  well_formed brackets = true ->
  amount a = true -> amount b = true -> le a b = true ->
  le (calculateFederalTax a brackets) (calculateFederalTax b brackets) = true.
Proof.
  intros Hwf Fa Fb Lab. unfold calculateFederalTax.
  pose proof (Rounding.chained_ok brackets (ofZ 0) Hwf eq_refl) as Hok.
  destruct (Rounding.fold_mono brackets a b (ofZ 0) (ofZ 0) Hok Fa Fb Lab
              (Rounding.zero_nonneg false) (Rounding.zero_nonneg false) eq_refl) as (L & Na & Nb).
  apply Rounding.round2_mono; assumption.
Qed.

Lemma C8_federal_tax_monotone_witness :
  le (calculateFederalTax (ofZ 36150) single_brackets)
     (calculateFederalTax (ofZ 50000) single_brackets) = true.
Proof.
  apply (C8_federal_tax_monotone single_brackets (ofZ 36150) (ofZ 50000));
    reflexivity.
Defined.


(** * Further properties of the calculator *)

(** ** The history and the two listeners *)

Lemma history_push_shape {A : Type} (h : list A) (c : A) :
  history_push h c = c :: (if 10 <=? length h then removelast h else h).
Proof.
  unfold history_push. cbn [length].
  change (10 <? S (length h)) with (10 <=? length h).
  destruct (10 <=? length h) eqn:Hlen; [| reflexivity].
  apply Nat.leb_le in Hlen. destruct h as [|x h]; [simpl in Hlen; lia | reflexivity].
Qed.

(** X1.  One [unshift] followed by the conditional [pop] changes the length
    of the history by at most one: a history of fewer than 10 entries grows
    by one, any other keeps its length.  The new entry comes first, the
    old ones follow in their order, and at most the oldest one is dropped.
    So a history that already holds more than 10 entries (one read from
    storage may) still holds more than 10 after a save: only the oldest
    entry goes. *)
Theorem X1_history_push_length {A : Type} (h : list A) (c : A) :
  length (history_push h c) = (if length h <? 10 then S (length h) else length h)
  /\ (exists kept dropped, h = kept ++ dropped /\ history_push h c = c :: kept
        /\ length dropped <= 1)
  /\ (10 < length h -> 10 < length (history_push h c)).
Proof.
  rewrite history_push_shape.
  assert (Hlen : length (c :: (if 10 <=? length h then removelast h else h))
                 = (if length h <? 10 then S (length h) else length h)).
  { destruct (Nat.leb_spec 10 (length h)) as [Hge | Hlt].
    - destruct (Nat.ltb_spec (length h) 10); [lia |].
      cbn [length]. rewrite removelast_firstn_len, length_take. lia.
    - destruct (Nat.ltb_spec (length h) 10); [reflexivity | lia]. }
  split; [exact Hlen |]. split.
  - destruct (10 <=? length h) eqn:Hfull.
    + apply Nat.leb_le in Hfull.
      destruct h as [|x h] using rev_ind; [simpl in Hfull; lia |].
      exists h, [x]. rewrite removelast_last. repeat split; simpl; lia.
    + exists h, []. rewrite app_nil_r. repeat split; simpl; lia.
  - intros Hlong. rewrite Hlen. destruct (Nat.ltb_spec (length h) 10); lia.
Qed.

Lemma X1_history_push_length_witness :
  10 < length (history_push (seq 0 12) 12).
Proof.
  apply (proj2 (proj2 (X1_history_push_length (seq 0 12) 12))). simpl. lia.
Defined.

(** What a submission does to the calculator, whatever its history. *)
Lemma calculateTax_state (this : TaxCalculator) (form : Form.t) (today : string) :
  snd (calculateTax this form today)
  = match saved_entry form today with
    | Some entry => saveToHistory this entry
    | None => this
    end.
Proof.
  unfold saved_entry, calculateTax.
  destruct (negb (truthy (or_else (Form.income form) (ofZ 0)))
            || String.eqb (Form.filingStatus form) ""); [reflexivity |].
  destruct (resolve_brackets (Form.filingStatus form)) as [brackets | name];
    [| reflexivity].
  match goal with |- context [displayBreakdown ?r] => destruct (displayBreakdown r) end;
    reflexivity.
Qed.

Lemma calculateTax_rejects (this : TaxCalculator) (form : Form.t) (today : string) :
  truthy (Form.income form) = false \/ Form.filingStatus form = ""%string ->
  calculateTax this form today
  = (Alert "Please enter your income and filing status.", this).
Proof.
  intros [Hincome | Hstatus]; unfold calculateTax.
  - unfold or_else. rewrite Hincome. reflexivity.
  - rewrite Hstatus. rewrite orb_true_r. reflexivity.
Qed.

Lemma saved_entry_accepted (form : Form.t) (today : string) :
  (exists entry, saved_entry form today = Some entry)
  <-> (truthy (Form.income form) = true /\ Form.filingStatus form <> ""%string
       /\ inherited (Form.filingStatus form) = false).
Proof.
  split.
  - intros [entry Hentry]. unfold saved_entry in Hentry.
    destruct (truthy (Form.income form)) eqn:Hincome.
    + destruct (String.eqb_spec (Form.filingStatus form) "") as [Hst | Hst].
      * rewrite calculateTax_rejects in Hentry by (now right). discriminate.
      * destruct (inherited (Form.filingStatus form)) eqn:Hinh; [| auto].
        rewrite calculateTax_throws in Hentry by assumption. discriminate.
    + rewrite calculateTax_rejects in Hentry by (now left). discriminate.
  - intros (Hincome & Hstatus & Hown).
    destruct (calculateTax_proceeds new_calculator form today Hincome Hstatus Hown)
      as (results & breakdown & entry & Hcalc & _).
    exists entry. unfold saved_entry. rewrite Hcalc. reflexivity.
Qed.


(** X3.  Whenever [calculateTax] displays results it saves exactly one
    entry: the new history is the old one with this entry pushed, the same
    list is written to storage, and the entry carries the date of the call
    and the income, the filing status, the federal, state and total tax and
    the after-tax income that are displayed.  The entry is the one the same
    form yields on a calculator without history: it does not depend on what
    was saved before. *)
Theorem X3_display_and_history_agree (this : TaxCalculator) (form : Form.t) (today : string)
    (results : Results.t) (breakdown : Breakdown.t) :
  fst (calculateTax this form today) = Displayed results breakdown ->
  exists entry,
    saved_entry form today = Some entry
    /\ TaxCalculator.history (snd (calculateTax this form today))
       = history_push (TaxCalculator.history this) entry
    /\ TaxCalculator.taxHistory (snd (calculateTax this form today))
       = Some (history_push (TaxCalculator.history this) entry)
    /\ Calculation.date entry = today
    /\ Calculation.income entry = Results.income results
    /\ Calculation.filingStatus entry = Results.filingStatus results
    /\ Calculation.federalTax entry = Results.federalTax results
    /\ Calculation.stateTax entry = Results.stateTax results
    /\ Calculation.totalTax entry = Results.totalTax results
    /\ Calculation.afterTaxIncome entry = Results.afterTaxIncome results.
Proof.
  intros Hout. rewrite calculateTax_state.
  unfold saved_entry. revert Hout. unfold calculateTax.
  destruct (negb (truthy (or_else (Form.income form) (ofZ 0)))
            || String.eqb (Form.filingStatus form) ""); [discriminate |].
  destruct (resolve_brackets (Form.filingStatus form)) as [brackets | name];
    [| discriminate].
  match goal with |- context [displayBreakdown ?r] => destruct (displayBreakdown r) end;
    [| discriminate].
  cbn [fst snd]. intros [= <- <-].
  eexists. split; [reflexivity |]. cbn. repeat split.
Qed.

Lemma X3_display_and_history_agree_witness :
  exists entry,
    saved_entry form_50000 "11/2/2026" = Some entry
    /\ TaxCalculator.history (snd (calculateTax new_calculator form_50000 "11/2/2026"))
       = [entry]
    /\ Calculation.date entry = "11/2/2026"%string
    /\ Calculation.totalTax entry = lit 561800 2.
Proof.
  destruct (X3_display_and_history_agree new_calculator form_50000 "11/2/2026"
              _ _ ltac:(vm_compute; reflexivity))
    as (entry & Hsaved & Hhistory & _ & Hdate & _ & _ & _ & _ & Htotal & _).
  exists entry. repeat split; assumption.
Defined.

Lemma dispatch_keeps (this : TaxCalculator) (ev : Event) :
  mirrored this /\ length (TaxCalculator.history this) <= 10 ->
  mirrored (dispatch this ev) /\ length (TaxCalculator.history (dispatch this ev)) <= 10.
Proof.
  intros [Hm Hlen]. destruct ev as [form today |]; cbn [dispatch].
  - rewrite calculateTax_state. destruct (saved_entry form today) as [entry|]; [| auto].
    split; [left; reflexivity |].
    cbn. rewrite history_push_take by exact Hlen. rewrite length_take. lia.
  - split; [right; split; reflexivity | simpl; lia].
Qed.

(** X4.  Whatever submissions and clicks on the clear button the two
    listeners receive, in any order: when the stored item mirrors the
    history and the history holds at most 10 entries before, both still
    hold after all of them. *)
Theorem X4_storage_mirrors_history (events : list Event) (this : TaxCalculator) :
  mirrored this -> length (TaxCalculator.history this) <= 10 ->
  mirrored (fold_left dispatch events this)
  /\ length (TaxCalculator.history (fold_left dispatch events this)) <= 10.
Proof.
  revert this. induction events as [|ev events IH]; intros this Hm Hlen; [auto |].
  simpl. destruct (dispatch_keeps this ev (conj Hm Hlen)) as [Hm' Hlen'].
  apply IH; assumption.
Qed.

Lemma X4_storage_mirrors_history_witness :
  mirrored (fold_left dispatch
              [Submit form_50000 "11/2/2026"; ClickClearHistory; Submit form_50000 "11/3/2026"]
              new_calculator)
  /\ length (TaxCalculator.history
               (fold_left dispatch
                  [Submit form_50000 "11/2/2026"; ClickClearHistory;
                   Submit form_50000 "11/3/2026"]
                  new_calculator)) <= 10.
Proof.
  apply (X4_storage_mirrors_history
           [Submit form_50000 "11/2/2026"; ClickClearHistory; Submit form_50000 "11/3/2026"]
           new_calculator).
  - right. split; reflexivity.
  - simpl. lia.
Defined.

Lemma dispatch_records (this : TaxCalculator) (saved : list Calculation.t) (ev : Event) :
  TaxCalculator.history this = take 10 saved ->
  TaxCalculator.history (dispatch this ev) = take 10 (record_event saved ev).
Proof.
  intros Hh. destruct ev as [form today |]; cbn [dispatch record_event]; [| reflexivity].
  rewrite calculateTax_state. destruct (saved_entry form today) as [entry|]; [| exact Hh].
  cbn [saveToHistory TaxCalculator.history].
  rewrite history_push_take by (rewrite Hh, length_take; lia).
  rewrite Hh. change (entry :: take 10 saved) with ([entry] ++ take 10 saved).
  rewrite take_app_take. reflexivity.
Qed.

(** X5.  From the empty history, after any sequence of submissions and
    clicks on the clear button, the history holds the entries of the
    accepted submissions since the last clearing, the latest first, cut to
    the first 10; a rejected submission leaves no trace. *)
Theorem X5_history_after_events (events : list Event) :
  TaxCalculator.history (fold_left dispatch events new_calculator)
  = take 10 (fold_left record_event events []).
Proof.
  assert (H : forall this saved,
             TaxCalculator.history this = take 10 saved ->
             TaxCalculator.history (fold_left dispatch events this)
             = take 10 (fold_left record_event events saved)).
  { induction events as [|ev events IH]; intros this saved Hh; [exact Hh |].
    simpl. apply IH. now apply dispatch_records. }
  apply H. reflexivity.
Qed.


(** ** The amounts *)

Module More.

Local Open Scope Z_scope.

Import Rounding.

Lemma div_nonneg (x d : number) :
  nonneg x -> fin d -> 0 < ival d -> nonneg (div x d).
Proof.
  intros Hx Fd Hd. destruct (nonneg_cases x Hx) as [Fx | ->].
  - apply (div_fin x d Fx Fd Hd).
  - rewrite (div_Infinity_l d Fd Hd). apply Infinity_nonneg.
Qed.

Lemma round2_nonneg (x : number) : nonneg x -> nonneg (round2 x).
Proof.
  intros Hx. destruct hundred as [F100 P100]. unfold round2.
  destruct (mul_mono x x (ofZ 100) Hx Hx F100
              (Order.le_refl x (nonneg_number x Hx)) (or_intror P100)) as (_ & Nx & _).
  apply div_nonneg; try assumption. now apply round_nonneg.
Qed.

Lemma state_rate_fin (state : string) :
  inherited state = false -> exists rate, state_rate state = Value rate /\ fin rate.
Proof.
  intros Hown. unfold state_rate, lookup_or, stateRates.
  repeat (rewrite lookup_insert; case_decide; [eexists; split; reflexivity |]).
  rewrite lookup_empty, Hown. eexists; split; reflexivity.
Qed.

Lemma calculateStateTax_rate (income : number) (state : string) :
  calculateStateTax income state = round2 (mul income (ToNumber (state_rate state))).
Proof. reflexivity. Qed.

Lemma state_tax_mono (a b : number) (state : string) :
  inherited state = false ->
  fin a -> fin b -> le a b = true ->
  le (calculateStateTax a state) (calculateStateTax b state) = true
  /\ nonneg (calculateStateTax a state) /\ nonneg (calculateStateTax b state).
Proof.
  intros Hown Fa Fb Lab. rewrite !calculateStateTax_rate.
  destruct (state_rate_fin state Hown) as (rate & -> & Frate). cbn [ToNumber].
  destruct (mul_mono a b rate (fin_nonneg a Fa) (fin_nonneg b Fb)
              Frate Lab (or_introl Fb)) as (Lm & Na & Nb).
  split; [| split].
  - apply round2_mono; assumption.
  - now apply round2_nonneg.
  - now apply round2_nonneg.
Qed.

Lemma federal_tax_nonneg (brackets : list TaxBracket) (a : number) :
  well_formed brackets = true -> fin a -> nonneg (calculateFederalTax a brackets).
Proof.
  intros Hwf Fa. unfold calculateFederalTax.
  pose proof (chained_ok brackets (ofZ 0) Hwf eq_refl) as Hok.
  destruct (fold_mono brackets a a (ofZ 0) (ofZ 0) Hok Fa Fa
              (Order.le_refl a (nonneg_number a (fin_nonneg a Fa)))
              (zero_nonneg false) (zero_nonneg false) eq_refl) as (_ & Na & _).
  now apply round2_nonneg.
Qed.

End More.

(** X6.  For two finite non-negative incomes [a <= b] and any state that
    does not name a member of [Object.prototype], in the table or not, the
    state tax on [a] is at most the state tax on [b], and it is not
    negative. *)
Theorem X6_state_tax_monotone (a b : number) (state : string) :
  inherited state = false ->
  amount a = true -> amount b = true -> le a b = true ->
  le (calculateStateTax a state) (calculateStateTax b state) = true
  /\ le (ofZ 0) (calculateStateTax a state) = true.
Proof.
  intros Hown Fa Fb Lab.
  destruct (More.state_tax_mono a b state Hown Fa Fb Lab) as (L & Na & _).
  split; [exact L | apply Na].
Qed.

Lemma X6_state_tax_monotone_witness :
  le (calculateStateTax (ofZ 36150) "high") (calculateStateTax (ofZ 50000) "high") = true
  /\ le (ofZ 0) (calculateStateTax (ofZ 36150) "high") = true.
Proof. apply (X6_state_tax_monotone (ofZ 36150) (ofZ 50000) "high"); reflexivity. Defined.

(** X7.  For a well-formed bracket sequence and a finite non-negative
    taxable income the federal tax is a number (not [NaN]) and is not
    negative. *)
Theorem X7_federal_tax_nonnegative (brackets : list TaxBracket) (a : number) :
  well_formed brackets = true -> amount a = true ->
  is_number (calculateFederalTax a brackets)
  /\ le (ofZ 0) (calculateFederalTax a brackets) = true
  /\ valid_binary prec emax (calculateFederalTax a brackets) = true.
Proof.
  intros Hwf Fa. destruct (More.federal_tax_nonneg brackets a Hwf Fa) as [Hv Hle].
  split; [| split; assumption]. apply Order.le_number in Hle. tauto.
Qed.

Lemma X7_federal_tax_nonnegative_witness :
  is_number (calculateFederalTax (ofZ 36150) single_brackets)
  /\ le (ofZ 0) (calculateFederalTax (ofZ 36150) single_brackets) = true
  /\ valid_binary prec emax (calculateFederalTax (ofZ 36150) single_brackets) = true.
Proof. apply (X7_federal_tax_nonnegative single_brackets (ofZ 36150)); reflexivity. Defined.

Lemma state_rate_zero (state : string) :
  state <> "low"%string -> state <> "medium"%string -> state <> "high"%string ->
  state_rate state = if inherited state then Member state else Value (ofZ 0).
Proof.
  intros Hl Hm Hh. unfold state_rate, lookup_or, stateRates.
  rewrite lookup_insert. case_decide; [subst; reflexivity |].
  rewrite lookup_insert_ne by congruence.
  rewrite lookup_insert_ne by congruence.
  rewrite lookup_insert_ne by congruence.
  rewrite lookup_empty. reflexivity.
Qed.

(** X8.  A state other than [low], [medium] and [high].  When it names a
    member of [Object.prototype], the rate read from the table is that
    member and the state tax is [NaN], whatever the income.  Otherwise the
    rate is [stateRates[state] || 0 = 0]: a finite income gives a zero
    state tax, with the sign of the income, and an income that is not
    finite ([NaN] or an infinity) gives [NaN], the product of an infinity
    and zero. *)
Theorem X8_state_tax_without_rate (income : number) (state : string) :
  state <> "low"%string -> state <> "medium"%string -> state <> "high"%string ->
  calculateStateTax income state
  = if inherited state then NaN
    else if Number_isFinite income then S754_zero (sign_bit income) else NaN.
Proof.
  intros Hl Hm Hh. rewrite More.calculateStateTax_rate, (state_rate_zero state Hl Hm Hh).
  destruct (inherited state); cbn [ToNumber].
  - destruct income as [si|si| |si mi ei]; reflexivity.
  - destruct income as [si|si| |si mi ei]; try reflexivity; destruct si; reflexivity.
Qed.

Lemma X8_state_tax_without_rate_witness :
  calculateStateTax (ofZ 50000) "none" = S754_zero false
  /\ calculateStateTax Infinity "elsewhere" = NaN
  /\ calculateStateTax (ofZ 50000) "toString" = NaN.
Proof.
  split; [| split].
  - apply (X8_state_tax_without_rate (ofZ 50000) "none"); discriminate.
  - apply (X8_state_tax_without_rate Infinity "elsewhere"); discriminate.
  - apply (X8_state_tax_without_rate (ofZ 50000) "toString"); discriminate.
Defined.

Module Signs.

Local Open Scope Z_scope.

Import Rounding.

Lemma round_aux_opp (q e : Z) (l : location) :
  binary_round_aux prec emax true q e l
  = SFopp (binary_round_aux prec emax false q e l).
Proof.
  unfold binary_round_aux.
  destruct (shr_fexp prec emax q e l) as [mrs' e'].
  destruct (shr_fexp prec emax _ e' loc_Exact) as [mrs'' e''].
  destruct (shr_m mrs''); try reflexivity.
  destruct (e'' <=? emax - prec); reflexivity.
Qed.

Lemma binary_round_opp (m : positive) (e : Z) :
  binary_round prec emax true m e = SFopp (binary_round prec emax false m e).
Proof.
  unfold binary_round. destruct (shl_align m e _) as [mz ez]. apply round_aux_opp.
Qed.

Lemma RQ_sign (a b e : Z) : sign_bit (RQ a b e) = false.
Proof.
  unfold RQ, pack. destruct (fst (rounded a b e)); try reflexivity.
  destruct (_ <=? _); reflexivity.
Qed.

(** [binary_normalize] never yields [NaN], and the sign of its result is
    the sign of the integer it is given. *)
Lemma binary_normalize_sign (z e : Z) :
  is_number (binary_normalize prec emax z e false)
  /\ (z < 0 -> sign_bit (binary_normalize prec emax z e false) = true)
  /\ (0 <= z -> sign_bit (binary_normalize prec emax z e false) = false).
Proof.
  destruct z as [|p|p]; cbn [binary_normalize].
  - repeat split; try discriminate; try reflexivity; lia.
  - rewrite (binary_round_RQ p e (Z.min e (-1074))) by lia.
    repeat split; try apply RQ_number; try lia. intros _. apply RQ_sign.
  - rewrite binary_round_opp, (binary_round_RQ p e (Z.min e (-1074))) by lia.
    pose proof (RQ_number (Zpos p * 2 ^ (e - Z.min e (-1074))) 1 (Z.min e (-1074))) as Hn.
    pose proof (RQ_sign (Zpos p * 2 ^ (e - Z.min e (-1074))) 1 (Z.min e (-1074))) as Hs.
    set (r := RQ (Zpos p * 2 ^ (e - Z.min e (-1074))) 1 (Z.min e (-1074))) in *.
    clearbody r.
    destruct r as [s|s| |s m' e']; simpl in *; subst;
      repeat split; try discriminate; try reflexivity; try lia.
    all: try (exfalso; apply Hn; reflexivity).
Qed.

(** Subtracting from a finite number never yields [NaN]. *)
Lemma sub_number (x d : number) :
  Number_isFinite x = true -> is_number d -> is_number (sub x d).
Proof.
  intros Hx Hd.
  destruct x as [sx|sx| |sx mx ex]; try discriminate;
    destruct d as [sd|sd| |sd md ed]; try contradiction; try discriminate.
  - destruct sx, sd; discriminate.
  - apply (binary_normalize_sign _ _).
Qed.

Lemma Math_max_zero (r : number) :
  is_number r ->
  le (ofZ 0) (Math_max (ofZ 0) r) = true
  /\ (sign_bit r = true -> Math_max (ofZ 0) r = ofZ 0)
  /\ (le (ofZ 0) r = true -> sim (Math_max (ofZ 0) r) r).
Proof.
  intros Hr. destruct r as [s|s| |s m e]; try contradiction; destruct s;
    repeat split; try reflexivity; try discriminate.
Qed.

End Signs.

(** The fields of the results a submission displays. *)
Lemma calculateTax_fields (this : TaxCalculator) (form : Form.t) (today : string)
    (results : Results.t) (breakdown : Breakdown.t) :
  fst (calculateTax this form today) = Displayed results breakdown ->
  let income := Form.income form in
  let deductions := resolve_deductions (Form.filingStatus form) (Form.deductions form) in
  let taxableIncome := Math_max (ofZ 0) (sub income (ToNumber deductions)) in
  let brackets := Results.brackets results in
  truthy income = true
  /\ Results.income results = income
  /\ Results.deductions results = deductions
  /\ Results.taxableIncome results = taxableIncome
  /\ resolve_brackets (Form.filingStatus form) = Value brackets
  /\ Results.federalTax results = calculateFederalTax taxableIncome brackets
  /\ Results.stateTax results = calculateStateTax income (Form.state form)
  /\ Results.totalTax results
     = add (calculateFederalTax taxableIncome brackets)
           (calculateStateTax income (Form.state form))
  /\ Results.afterTaxIncome results
     = sub income (add (calculateFederalTax taxableIncome brackets)
                       (calculateStateTax income (Form.state form)))
  /\ Breakdown.marginalRate breakdown
     = default NaN (getMarginalRate taxableIncome brackets).
Proof.
  unfold calculateTax. destruct (truthy (Form.income form)) eqn:Hincome.
  - assert (Hor : or_else (Form.income form) (ofZ 0) = Form.income form)
      by (unfold or_else; now rewrite Hincome).
    rewrite Hor, Hincome. cbn [negb orb].
    destruct (String.eqb (Form.filingStatus form) ""); [discriminate |].
    destruct (resolve_brackets (Form.filingStatus form)) as [brackets | name];
      [| discriminate].
    unfold displayBreakdown. cbn [Results.taxableIncome Results.brackets].
    destruct (getMarginalRate _ _) as [r|] eqn:Hr; [| discriminate].
    cbn [fst]. intros [= <- <-]. cbn. repeat split.
    exact (eq_sym (f_equal (default NaN) Hr)).
  - unfold or_else. rewrite Hincome. cbn. discriminate.
Qed.

Lemma resolve_deductions_number (filingStatus : string) (customDeductions : number) :
  inherited filingStatus = false ->
  exists d, resolve_deductions filingStatus customDeductions = Value d /\ is_number d.
Proof.
  intros Hown. rewrite resolve_deductions_cases, Hown.
  destruct (truthy customDeductions) eqn:Hc.
  - eexists; split; [reflexivity |]. intros ->. discriminate.
  - destruct (standardDeductions2024 !! filingStatus) as [d|] eqn:Hd;
      (eexists; split; [reflexivity |]); [| discriminate].
    apply standardDeductions2024_truthy in Hd. intros ->. discriminate.
Qed.

Lemma calculateTax_displays (this : TaxCalculator) (form : Form.t) (today : string) :
  truthy (Form.income form) = true -> Form.filingStatus form <> ""%string ->
  inherited (Form.filingStatus form) = false ->
  exists results breakdown,
    fst (calculateTax this form today) = Displayed results breakdown.
Proof.
  intros Hincome Hstatus Hown.
  destruct (calculateTax_proceeds this form today Hincome Hstatus Hown)
    as (results & breakdown & entry & Hcalc & _).
  exists results, breakdown. now rewrite Hcalc.
Qed.

(** X9.  The taxable income displayed is never below zero, because of
    [Math.max(0, ...)]: for every form that passes the validation and whose
    filing status does not name a member of [Object.prototype], results are
    displayed, [taxableIncome < 0] is false, and for a finite income
    [0 <= taxableIncome] holds (an infinite income of either sign can make
    the difference [NaN] when the deductions are infinite as well). *)
Theorem X9_taxable_income_not_negative (this : TaxCalculator) (form : Form.t)
    (today : string) :
  truthy (Form.income form) = true -> Form.filingStatus form <> ""%string ->
  inherited (Form.filingStatus form) = false ->
  exists results breakdown,
    fst (calculateTax this form today) = Displayed results breakdown
    /\ lt (Results.taxableIncome results) (ofZ 0) = false
    /\ (Number_isFinite (Form.income form) = true ->
        le (ofZ 0) (Results.taxableIncome results) = true).
Proof.
  intros Hincome Hstatus Hown.
  destruct (calculateTax_displays this form today Hincome Hstatus Hown)
    as (results & breakdown & Hout).
  exists results, breakdown. split; [exact Hout |].
  destruct (calculateTax_fields this form today results breakdown Hout)
    as (_ & _ & _ & Ht & _).
  rewrite Ht. split.
  - destruct (sub _ _) as [s|s| |s m e]; try destruct s; reflexivity.
  - intros Hfin. apply Signs.Math_max_zero.
    destruct (resolve_deductions_number (Form.filingStatus form) (Form.deductions form)
                Hown) as (d & -> & Hd).
    apply Signs.sub_number; [exact Hfin | exact Hd].
Qed.

Lemma X9_taxable_income_not_negative_witness :
  exists results breakdown,
    fst (calculateTax new_calculator
           {| Form.income := ofZ 5000; Form.filingStatus := "single";
              Form.deductions := NaN; Form.state := "low" |} "11/2/2026")
    = Displayed results breakdown
    /\ lt (Results.taxableIncome results) (ofZ 0) = false
    /\ (Number_isFinite (ofZ 5000) = true ->
        le (ofZ 0) (Results.taxableIncome results) = true).
Proof.
  apply (X9_taxable_income_not_negative new_calculator
           {| Form.income := ofZ 5000; Form.filingStatus := "single";
              Form.deductions := NaN; Form.state := "low" |} "11/2/2026").
  - reflexivity.
  - discriminate.
  - reflexivity.
Defined.

Lemma standardDeductions2024_positive (filingStatus : string) (d : number) :
  standardDeductions2024 !! filingStatus = Some d -> amount d = true /\ lt (ofZ 0) d = true.
Proof.
  unfold standardDeductions2024.
  repeat (rewrite lookup_insert; case_decide; [intros [= <-]; split; reflexivity |]).
  rewrite lookup_empty. discriminate.
Qed.

Lemma resolve_deductions_positive (filingStatus : string) (customDeductions : number) :
  inherited filingStatus = false ->
  truthy customDeductions = false \/ lt (ofZ 0) customDeductions = true ->
  exists d,
    resolve_deductions filingStatus customDeductions = Value d /\ lt (ofZ 0) d = true.
Proof.
  intros Hown Hc. rewrite resolve_deductions_cases, Hown.
  destruct (truthy customDeductions) eqn:Ht.
  - eexists; split; [reflexivity |].
    destruct Hc as [Hc | Hc]; [discriminate | exact Hc].
  - destruct (standardDeductions2024 !! filingStatus) as [d|] eqn:Hd;
      (eexists; split; [reflexivity |]); [| reflexivity].
    apply (standardDeductions2024_positive _ _ Hd).
Qed.

Lemma sub_negative_positive (x d : number) :
  lt x (ofZ 0) = true -> lt (ofZ 0) d = true ->
  is_number (sub x d) /\ sign_bit (sub x d) = true.
Proof.
  intros Hx Hd.
  destruct x as [sx|sx| |sx mx ex]; try discriminate; destruct sx; try discriminate;
    destruct d as [sd|sd| |sd md ed]; try discriminate; destruct sd; try discriminate;
    try (split; [discriminate | reflexivity]).
  unfold sub, SFsub. cbn [cond_Zopp].
  destruct (Signs.binary_normalize_sign
              (- Zpos (fst (shl_align mx ex (Z.min ex ed)))
               - Zpos (fst (shl_align md ed (Z.min ex ed))))%Z (Z.min ex ed))
    as (Hn & Hs & _).
  split; [exact Hn | apply Hs; lia].
Qed.

Lemma federal_tax_of_zero (filingStatus : string) (brackets : list TaxBracket) :
  resolve_brackets filingStatus = Value brackets ->
  calculateFederalTax (ofZ 0) brackets = ofZ 0.
Proof.
  destruct (resolve_brackets_cases filingStatus) as [[_ [-> | ->]] | [_ ->]];
    intros [= <-]; reflexivity.
Qed.

(** X10.  A negative income with positive deductions (the standard ones,
    or custom ones above zero), under a filing status that does not name a
    member of [Object.prototype], has taxable income 0 and federal tax 0,
    so the total tax is [0 + stateTax], where the state tax is computed
    from the negative income itself. *)
Theorem X10_negative_income_pays_no_federal_tax (this : TaxCalculator) (form : Form.t)
    (today : string) :
  lt (Form.income form) (ofZ 0) = true -> Form.filingStatus form <> ""%string ->
  inherited (Form.filingStatus form) = false ->
  truthy (Form.deductions form) = false \/ lt (ofZ 0) (Form.deductions form) = true ->
  exists results breakdown,
    fst (calculateTax this form today) = Displayed results breakdown
    /\ Results.taxableIncome results = ofZ 0
    /\ Results.federalTax results = ofZ 0
    /\ Results.totalTax results = add (ofZ 0) (Results.stateTax results).
Proof.
  intros Hneg Hstatus Hown Hded.
  destruct (calculateTax_displays this form today (negative_truthy _ Hneg) Hstatus Hown)
    as (results & breakdown & Hout).
  exists results, breakdown. split; [exact Hout |].
  destruct (calculateTax_fields this form today results breakdown Hout)
    as (_ & _ & _ & Ht & Hbr & Hf & Hs & Htot & _).
  destruct (resolve_deductions_positive (Form.filingStatus form) _ Hown Hded)
    as (d & Hd & Hpos).
  rewrite Hd in Ht, Hf, Htot. cbn [ToNumber] in Ht, Hf, Htot.
  destruct (sub_negative_positive _ _ Hneg Hpos) as [Hn Hsign].
  assert (Hzero : Math_max (ofZ 0) (sub (Form.income form) d) = ofZ 0)
    by now apply Signs.Math_max_zero.
  rewrite Ht, Hf, Htot, Hs, Hzero, (federal_tax_of_zero _ _ Hbr). auto.
Qed.

Lemma X10_negative_income_pays_no_federal_tax_witness :
  exists results breakdown,
    fst (calculateTax new_calculator
           {| Form.income := ofZ (-5000); Form.filingStatus := "single";
              Form.deductions := NaN; Form.state := "low" |} "11/2/2026")
    = Displayed results breakdown
    /\ Results.taxableIncome results = ofZ 0
    /\ Results.federalTax results = ofZ 0
    /\ Results.totalTax results = add (ofZ 0) (Results.stateTax results).
Proof.
  apply (X10_negative_income_pays_no_federal_tax new_calculator
           {| Form.income := ofZ (-5000); Form.filingStatus := "single";
              Form.deductions := NaN; Form.state := "low" |} "11/2/2026").
  - reflexivity.
  - discriminate.
  - reflexivity.
  - left. reflexivity.
Defined.

Module Totals.

Local Open Scope Z_scope.

Import Rounding.

Lemma Math_max_fin (r : number) :
  fin r -> fin (Math_max (ofZ 0) r) /\ sim (Math_max (ofZ 0) r) r.
Proof.
  intros Fr. destruct (fin_cases r Fr) as [[s ->] | (m & e & -> & Hb)].
  - destruct s; split; try reflexivity; repeat split; discriminate.
  - split; [exact Fr |]. apply sim_refl. discriminate.
Qed.

Lemma sub_below (x d : number) :
  fin x -> fin d -> ival x < ival d ->
  is_number (sub x d) /\ sign_bit (sub x d) = true.
Proof.
  intros Fx Fd Hlt.
  destruct (fin_cases d Fd) as [[sd ->] | (md & ed & -> & Hbd)];
    [pose proof (ival_nonneg x); simpl in Hlt; lia |].
  destruct (fin_cases x Fx) as [[sx ->] | (mx & ex & -> & Hbx)].
  - split; [discriminate | reflexivity].
  - destruct (bounded_facts mx ex Hbx) as (_ & _ & Hex & _).
    destruct (bounded_facts md ed Hbd) as (_ & _ & Hed & _).
    unfold sub, SFsub. cbn [cond_Zopp].
    destruct (Signs.binary_normalize_sign
                (Zpos (fst (shl_align mx ex (Z.min ex ed)))
                 - Zpos (fst (shl_align md ed (Z.min ex ed)))) (Z.min ex ed))
      as (Hn & Hs & _).
    split; [exact Hn | apply Hs].
    rewrite !shl_align_fst by lia. simpl ival in Hlt.
    assert (HP : 0 < 2 ^ (Z.min ex ed + 1074)) by (apply Z.pow_pos_nonneg; lia).
    assert (E1 : Zpos mx * 2 ^ (ex + 1074)
                 = Zpos mx * 2 ^ (ex - Z.min ex ed) * 2 ^ (Z.min ex ed + 1074)).
    { rewrite <- Z.mul_assoc, <- Z.pow_add_r by lia. f_equal. f_equal. lia. }
    assert (E2 : Zpos md * 2 ^ (ed + 1074)
                 = Zpos md * 2 ^ (ed - Z.min ex ed) * 2 ^ (Z.min ex ed + 1074)).
    { rewrite <- Z.mul_assoc, <- Z.pow_add_r by lia. f_equal. f_equal. lia. }
    rewrite E1, E2 in Hlt. nia.
Qed.

(** [Math.max(0, x - d)] as a function of [x]. *)
Lemma taxable_fin (x d : number) :
  fin x -> fin d ->
  fin (Math_max (ofZ 0) (sub x d))
  /\ (ival x < ival d -> Math_max (ofZ 0) (sub x d) = ofZ 0)
  /\ (ival d <= ival x -> sim (Math_max (ofZ 0) (sub x d)) (sub x d) /\ fin (sub x d)).
Proof.
  intros Fx Fd.
  assert (Hlow : ival x < ival d -> Math_max (ofZ 0) (sub x d) = ofZ 0).
  { intros Hlt. destruct (sub_below x d Fx Fd Hlt) as [Hn Hs].
    now apply Signs.Math_max_zero. }
  assert (Hhigh : ival d <= ival x ->
                  sim (Math_max (ofZ 0) (sub x d)) (sub x d) /\ fin (sub x d)).
  { intros Hge.
    destruct (sub_mono x x d Fx Fx Fd (le_ival_intro d x Fd Fx Hge)
                (Order.le_refl x (nonneg_number x (fin_nonneg x Fx)))) as (_ & Fs & _).
    split; [apply (Math_max_fin _ Fs) | exact Fs]. }
  split; [| split; assumption].
  destruct (Z_lt_le_dec (ival x) (ival d)) as [Hlt | Hge].
  - rewrite (Hlow Hlt). reflexivity.
  - apply Math_max_fin. now apply Hhigh.
Qed.



Lemma resolve_brackets_well_formed (filingStatus : string) (brackets : list TaxBracket) :
  resolve_brackets filingStatus = Value brackets -> well_formed brackets = true.
Proof.
  destruct (resolve_brackets_cases filingStatus) as [[_ [-> | ->]] | [_ ->]];
    intros [= <-]; reflexivity.
Qed.

Lemma resolve_deductions_fin (filingStatus : string) (customDeductions : number) :
  inherited filingStatus = false ->
  truthy customDeductions = false \/ amount customDeductions = true ->
  exists d, resolve_deductions filingStatus customDeductions = Value d /\ fin d.
Proof.
  intros Hown Hc. rewrite resolve_deductions_cases, Hown.
  destruct (truthy customDeductions) eqn:Ht.
  - eexists; split; [reflexivity |].
    destruct Hc as [Hc | Hc]; [discriminate | exact Hc].
  - destruct (standardDeductions2024 !! filingStatus) as [d|] eqn:Hd;
      (eexists; split; [reflexivity |]); [| reflexivity].
    apply (standardDeductions2024_positive _ _ Hd).
Qed.

End Totals.



(** ** The marginal rate along the brackets *)

Lemma ascending_rates_head (b : TaxBracket) (rest : list TaxBracket) (b' : TaxBracket) :
  ascending_rates (b :: rest) = true -> is_number (TaxBracket.rate b) ->
  In b' (b :: rest) -> le (TaxBracket.rate b) (TaxBracket.rate b') = true.
Proof.
  revert b. induction rest as [|b2 rest IH]; intros b Hasc Hn [<- | Hin].
  - now apply Order.le_refl.
  - destruct Hin.
  - now apply Order.le_refl.
  - cbn [ascending_rates] in Hasc. apply andb_prop in Hasc. destruct Hasc as [H12 Hrest].
    apply (Order.le_trans _ (TaxBracket.rate b2)); [exact H12 |].
    apply IH; [exact Hrest | | exact Hin].
    apply Order.le_number in H12. tauto.
Qed.

Lemma ascending_rates_tail (b : TaxBracket) (rest : list TaxBracket) :
  ascending_rates (b :: rest) = true -> ascending_rates rest = true.
Proof.
  destruct rest as [|b2 rest]; [reflexivity |].
  cbn [ascending_rates]. intros H. apply andb_prop in H. tauto.
Qed.

Lemma first_match_In (x : number) (brackets : list TaxBracket) (b : TaxBracket) :
  first_match x brackets = Some b -> In b brackets.
Proof.
  induction brackets as [|b1 rest IH]; [discriminate |].
  cbn [first_match]. destruct (_ && _); [intros [= <-]; now left | right; auto].
Qed.

Lemma first_match_mono (brackets : list TaxBracket) (lo a b : number)
    (ba bb : TaxBracket) :
  chained lo brackets = true -> ascending_rates brackets = true ->
  le lo a = true -> le a b = true ->
  first_match a brackets = Some ba -> first_match b brackets = Some bb ->
  le (TaxBracket.rate ba) (TaxBracket.rate bb) = true.
Proof.
  revert lo. induction brackets as [|b1 rest IH]; intros lo Hch Hasc Hlo Lab Ha Hb;
    [discriminate |].
  cbn [chained] in Hch. repeat (apply andb_prop in Hch; destruct Hch as [Hch ?]).
  apply Order.eqb_le in Hch. destruct Hch as [Hmin _].
  assert (Hrate : is_number (TaxBracket.rate b1)).
  { match goal with H : le (ofZ 0) (TaxBracket.rate b1) = true |- _ =>
      apply Order.le_number in H; tauto end. }
  cbn [first_match] in Ha, Hb. unfold ge in Ha, Hb.
  assert (La : le (TaxBracket.min b1) a = true) by (apply (Order.le_trans _ lo); assumption).
  assert (Lb : le (TaxBracket.min b1) b = true) by (apply (Order.le_trans _ a); assumption).
  rewrite La in Ha. rewrite Lb in Hb. cbn [andb] in Ha, Hb.
  destruct (lt a (TaxBracket.max b1)) eqn:Hamax.
  - injection Ha as <-.
    apply (ascending_rates_head b1 rest bb Hasc Hrate).
    destruct (lt b (TaxBracket.max b1)); [injection Hb as <-; now left |].
    right. now apply (first_match_In b).
  - assert (Lmax : le (TaxBracket.max b1) a = true).
    { apply Order.lt_false; try assumption.
      - apply Order.le_number in Lab. tauto.
      - match goal with H : le (TaxBracket.min b1) (TaxBracket.max b1) = true |- _ =>
          apply Order.le_number in H; tauto end. }
    assert (Hbmax : lt b (TaxBracket.max b1) = false).
    { apply Order.lt_irrefl_le. apply (Order.le_trans _ a); assumption. }
    rewrite Hbmax in Hb.
    apply (IH (TaxBracket.max b1)); try assumption.
    now apply (ascending_rates_tail b1).
Qed.

(** X12.  For a well-formed bracket sequence whose rates do not decrease
    along it, the marginal rate does not decrease with the taxable income:
    for finite [0 <= a <= b] both lookups return a rate and the one for [a]
    is at most the one for [b]. *)
Theorem X12_marginal_rate_monotone (brackets : list TaxBracket) (a b : number) :
  well_formed brackets = true -> ascending_rates brackets = true ->
  le (ofZ 0) a = true -> le a b = true -> lt b Infinity = true ->
  exists ra rb,
    getMarginalRate a brackets = Some ra /\ getMarginalRate b brackets = Some rb
    /\ le ra rb = true.
Proof.
  intros Hwf Hasc Ha Lab Hb.
  assert (Hb0 : le (ofZ 0) b = true) by (apply (Order.le_trans _ a); assumption).
  assert (Hafin : lt a Infinity = true) by (apply (Order.le_lt_trans _ b); assumption).
  pose proof (chained_first_match brackets _ _ Hwf Ha Hafin) as Hfa.
  pose proof (chained_first_match brackets _ _ Hwf Hb0 Hb) as Hfb.
  destruct (first_match a brackets) as [ba|] eqn:Ea; [| contradiction].
  destruct (first_match b brackets) as [bb|] eqn:Eb; [| contradiction].
  exists (TaxBracket.rate ba), (TaxBracket.rate bb).
  unfold getMarginalRate. rewrite Ea, Eb. repeat split.
  apply (first_match_mono brackets (ofZ 0) a b); assumption.
Qed.

Lemma X12_marginal_rate_monotone_witness :
  exists ra rb,
    getMarginalRate (ofZ 36150) single_brackets = Some ra
    /\ getMarginalRate (ofZ 200000) single_brackets = Some rb
    /\ le ra rb = true.
Proof.
  apply (X12_marginal_rate_monotone single_brackets (ofZ 36150) (ofZ 200000));
    reflexivity.
Defined.

(** X13.  [getMarginalRate] returns nothing only for an empty bracket list
    (where [brackets[brackets.length - 1]] is [undefined] and reading
    [.rate] throws); any rate it returns is the rate of a bracket of the
    list; and for the income [NaN] no bracket matches, so the result is the
    rate of the last bracket. *)
Theorem X13_marginal_rate_edges (taxableIncome : number) (brackets : list TaxBracket) :
  (getMarginalRate taxableIncome brackets = None <-> brackets = [])
  /\ (forall r, getMarginalRate taxableIncome brackets = Some r ->
      exists b, In b brackets /\ r = TaxBracket.rate b)
  /\ getMarginalRate NaN brackets = TaxBracket.rate <$> last brackets.
Proof.
  split; [| split].
  - split.
    + intros Hnone. destruct brackets as [|b rest]; [reflexivity |].
      destruct (getMarginalRate_is_Some taxableIncome (b :: rest)) as [r Hr];
        [discriminate | congruence].
    + intros ->. reflexivity.
  - intros r. unfold getMarginalRate.
    destruct (first_match taxableIncome brackets) as [b|] eqn:Hfirst.
    + intros [= <-]. exists b. split; [now apply (first_match_In taxableIncome) | reflexivity].
    + destruct (last brackets) as [b|] eqn:Hlast; [| discriminate].
      intros [= <-]. exists b. split; [| reflexivity].
      apply last_Some in Hlast. destruct Hlast as [l' ->].
      apply in_or_app. right. now left.
  - unfold getMarginalRate.
    assert (H : first_match NaN brackets = None)
      by (induction brackets as [|b rest IH]; [reflexivity |];
          cbn [first_match]; destruct (TaxBracket.min b) as [| | |[] ];
          destruct (TaxBracket.max b) as [| | |[] ]; exact IH).
    now rewrite H.
Qed.

(** X14.  Brackets whose [min] the taxable income does not exceed add
    nothing to the federal tax: with such brackets at the end of the list
    the tax is that of the list without them.  For the income [NaN] no
    bracket counts and the tax is 0, as it is for an empty list. *)
Theorem X14_brackets_above_the_income (taxableIncome : number)
    (below above : list TaxBracket) :
  (Forall (fun b => gt taxableIncome (TaxBracket.min b) = false) above ->
   calculateFederalTax taxableIncome (below ++ above)
   = calculateFederalTax taxableIncome below)
  /\ calculateFederalTax NaN below = ofZ 0
  /\ calculateFederalTax taxableIncome [] = ofZ 0.
Proof.
  split; [| split].
  - intros Habove. unfold calculateFederalTax. rewrite fold_left_app. f_equal.
    generalize (fold_left (federal_step taxableIncome) below (ofZ 0)). intros tax.
    induction Habove as [|b rest Hb _ IH]; [reflexivity |].
    cbn [fold_left]. unfold federal_step at 2. rewrite Hb. exact IH.
  - unfold calculateFederalTax.
    assert (H : forall tax, fold_left (federal_step NaN) below tax = tax).
    { induction below as [|b rest IH]; intros tax; [reflexivity |].
      cbn [fold_left]. rewrite <- (IH tax) at 2. f_equal.
      unfold federal_step. now destruct (TaxBracket.min b) as [| | |[] ]. }
    rewrite H. reflexivity.
  - reflexivity.
Qed.

Lemma X14_brackets_above_the_income_witness :
  calculateFederalTax (ofZ 36150) (take 2 single_brackets ++ drop 2 single_brackets)
  = calculateFederalTax (ofZ 36150) (take 2 single_brackets).
Proof.
  apply (proj1 (X14_brackets_above_the_income (ofZ 36150)
                  (take 2 single_brackets) (drop 2 single_brackets))).
  repeat constructor.
Defined.

(** X15.  When the constructor's load returns, the history it assigns is
    truthy: it is the parsed value itself when that is truthy (an array or
    not), and the empty array otherwise; it is never [null], [false], a
    zero or the empty string. *)
Theorem X15_loaded_history_is_truthy (taxHistory : option string) (v : json) :
  loadHistory taxHistory = inr v ->
  json_truthy v = true
  /\ exists parsed,
       JSON_parse (default "null"%string taxHistory) = Some parsed
       /\ v = (if json_truthy parsed then parsed else JArray []).
Proof.
  unfold loadHistory.
  replace (match taxHistory with Some s => s | None => "null"%string end)
    with (default "null"%string taxHistory) by (destruct taxHistory; reflexivity).
  destruct (JSON_parse (default "null"%string taxHistory)) as [parsed|]; [| discriminate].
  intros [= <-]. split; [| exists parsed; split; reflexivity].
  destruct (json_truthy parsed) eqn:Ht; [exact Ht | reflexivity].
Qed.

Lemma X15_loaded_history_is_truthy_witness :
  json_truthy (JArray []) = true
  /\ exists parsed,
       JSON_parse (default "null"%string (Some "0"%string)) = Some parsed
       /\ JArray [] = (if json_truthy parsed then parsed else JArray []).
Proof.
  apply (X15_loaded_history_is_truthy (Some "0"%string) (JArray [])). reflexivity.
Defined.

Module AfterTax.

Local Open Scope Z_scope.

Import Rounding.

Lemma negative_le (y x : number) :
  is_number y -> sign_bit y = true -> nonneg x -> le y x = true.
Proof.
  intros Hn Hs [Hv Hx].
  destruct y as [sy|sy| |sy my ey]; try (exfalso; apply Hn; reflexivity);
    simpl in Hs; subst sy;
    destruct x as [sx|sx| |sx mx ex]; try discriminate; try reflexivity;
    destruct sx; try discriminate; reflexivity.
Qed.

(** [x - t] for a tax [t] that is not negative. *)
Lemma sub_at_most (x t : number) :
  fin x -> nonneg t -> le (sub x t) x = true.
Proof.
  intros Fx Nt. destruct (nonneg_cases t Nt) as [Ft | ->].
  - destruct (Z_lt_le_dec (ival x) (ival t)) as [Hlt | Hge].
    + destruct (Totals.sub_below x t Fx Ft Hlt) as [Hn Hs].
      apply negative_le; [exact Hn | exact Hs | now apply fin_nonneg].
    + destruct (sub_fin x t Fx Ft Hge) as [Sw _].
      pose proof (ival_nonneg t).
      apply (le_sim _ _ _ _ (sim_sym _ _ Sw) (sim_sym _ _ (fin_RQ x Fx))).
      apply (RQ_mono _ _ _ _ _ _ (-1074)); try lia; try (apply low_target; lia).
  - destruct (fin_cases x Fx) as [[s ->] | (m & e & -> & _)]; [destruct s |]; reflexivity.
Qed.

End AfterTax.

(** X16.  For a form that passes the validation, with a filing status and
    a state that do not name members of [Object.prototype], a finite
    non-negative income and custom deductions that are empty or a finite
    non-negative amount: results are displayed, the federal tax, the state
    tax and the total tax are not negative, the total is at least the
    federal tax, and the income after tax is at most the income. *)
Theorem X16_after_tax_at_most_income (this : TaxCalculator) (form : Form.t)
    (today : string) :
  amount (Form.income form) = true -> truthy (Form.income form) = true ->
  Form.filingStatus form <> ""%string ->
  inherited (Form.filingStatus form) = false ->
  inherited (Form.state form) = false ->
  truthy (Form.deductions form) = false \/ amount (Form.deductions form) = true ->
  exists results breakdown,
    fst (calculateTax this form today) = Displayed results breakdown
    /\ le (ofZ 0) (Results.federalTax results) = true
    /\ le (ofZ 0) (Results.stateTax results) = true
    /\ le (ofZ 0) (Results.totalTax results) = true
    /\ le (Results.federalTax results) (Results.totalTax results) = true
    /\ le (Results.afterTaxIncome results) (Results.income results) = true.
Proof.
  intros Fa Ta Hstatus Hown Hstate Hcustom.
  destruct (calculateTax_displays this form today Ta Hstatus Hown) as (r & bd & Hout).
  exists r, bd. split; [exact Hout |].
  destruct (calculateTax_fields _ _ _ _ _ Hout)
    as (_ & Hi & _ & _ & Hbr & Hf & Hs & Htot & Hafter & _).
  destruct (Totals.resolve_deductions_fin (Form.filingStatus form) _ Hown Hcustom)
    as (d & Hd & Fd).
  rewrite Hd in *. cbn [ToNumber] in *.
  destruct (Totals.taxable_fin _ _ Fa Fd) as (FT & _).
  pose proof (More.federal_tax_nonneg _ _
                (Totals.resolve_brackets_well_formed _ _ Hbr) FT) as Nf.
  destruct (More.state_tax_mono _ _ (Form.state form) Hstate Fa Fa
              (Order.le_refl _ (Rounding.nonneg_number _ (Rounding.fin_nonneg _ Fa))))
    as (_ & Ns & _).
  pose proof (Rounding.add_nonneg _ _ Nf Ns) as Nt.
  rewrite Hi, Hf, Hs, Htot, Hafter.
  split; [apply Nf |]. split; [apply Ns |]. split; [apply Nt |].
  split; [now apply Rounding.add_increases |].
  now apply AfterTax.sub_at_most.
Qed.

Lemma X16_after_tax_at_most_income_witness :
  exists results breakdown,
    fst (calculateTax new_calculator form_50000 "11/2/2026") = Displayed results breakdown
    /\ le (ofZ 0) (Results.federalTax results) = true
    /\ le (ofZ 0) (Results.stateTax results) = true
    /\ le (ofZ 0) (Results.totalTax results) = true
    /\ le (Results.federalTax results) (Results.totalTax results) = true
    /\ le (Results.afterTaxIncome results) (Results.income results) = true.
Proof.
  apply (X16_after_tax_at_most_income new_calculator form_50000 "11/2/2026").
  - reflexivity.
  - reflexivity.
  - discriminate.
  - reflexivity.
  - reflexivity.
  - left. reflexivity.
Defined.


(** ** Filing statuses in and outside the tables *)

(** X17.  The deductions are the custom deductions when that field is
    present and non-zero.  Otherwise they are the standard deduction the
    table has for the filing status; 13850, the standard deduction of
    [single], when the table has no entry and the status does not name a
    member of [Object.prototype]; and that member when it names one. *)
Theorem X17_deduction_resolver (filingStatus : string) (customDeductions : number) :
  (truthy customDeductions = true ->
   resolve_deductions filingStatus customDeductions = Value customDeductions)
  /\ (forall standard,
        truthy customDeductions = false ->
        standardDeductions2024 !! filingStatus = Some standard ->
        resolve_deductions filingStatus customDeductions = Value standard)
  /\ (truthy customDeductions = false ->
      standardDeductions2024 !! filingStatus = None ->
      inherited filingStatus = false ->
      resolve_deductions filingStatus customDeductions = Value (ofZ 13850))
  /\ (truthy customDeductions = false ->
      standardDeductions2024 !! filingStatus = None ->
      inherited filingStatus = true ->
      resolve_deductions filingStatus customDeductions = Member filingStatus).
Proof.
  rewrite resolve_deductions_cases. repeat split.
  - now intros ->.
  - now intros standard -> ->.
  - now intros -> -> ->.
  - now intros -> -> ->.
Qed.

Lemma X17_deduction_resolver_witness :
  resolve_deductions "headOfHousehold" (ofZ 5000) = Value (ofZ 5000)
  /\ resolve_deductions "headOfHousehold" NaN = Value (ofZ 20800)
  /\ resolve_deductions "widow" (ofZ 0) = Value (ofZ 13850)
  /\ resolve_deductions "hasOwnProperty" (ofZ 0) = Member "hasOwnProperty".
Proof.
  split; [| split; [| split]].
  - apply (proj1 (X17_deduction_resolver "headOfHousehold" (ofZ 5000))). reflexivity.
  - apply (proj1 (proj2 (X17_deduction_resolver "headOfHousehold" NaN)));
      reflexivity.
  - apply (proj1 (proj2 (proj2 (X17_deduction_resolver "widow" (ofZ 0)))));
      reflexivity.
  - apply (proj2 (proj2 (proj2 (X17_deduction_resolver "hasOwnProperty" (ofZ 0)))));
      reflexivity.
Defined.


